(** * cluster.py: barcode clusters of genomic positions

    A shallow embedding of [cluster.py] and the properties of its
    classes [Position], [Cluster] and [Clusters], of the barcode
    extraction performed with the [re] pattern, and of the two drivers
    [get_clusters] and [write_clusters_to_file].

    The program is Python 2 ([dict.iteritems]).  The objects that are
    mutated through references, the instances of [Cluster] and of
    [Clusters], live in a store and are named by their address; immutable
    values ([Position], strings, integers) are plain values.  Exceptions
    are explicit outcomes. *)

From Stdlib Require Import ZArith Ascii String DecimalString DecimalPos DecimalZ.
From stdpp Require Import gmap strings list fin_maps.

Local Open Scope Z_scope.

(** ** Python values: strings, exceptions *)

Definition TAB : string := String "009" "".   (* "\t" *)
Definition NL : string := String "010" "".    (* "\n" *)

(** [str(i)] for an integer [i]: its decimal numeral. *)
Definition str (i : Z) : string := NilZero.string_of_int (Z.to_int i).

(** [sep.join(parts)]. *)
Definition str_join (sep : string) (parts : list string) : string :=
  String.concat sep parts.

(** [n * s] for an integer [n] and a string [s]: [s] repeated [n] times,
    the empty string when [n <= 0]. *)
Fixpoint str_repeat (n : nat) (s : string) : string :=
  match n with
  | O => ""
  | S n' => s +:+ str_repeat n' s
  end.

Definition str_mul (n : Z) (s : string) : string :=
  str_repeat (Z.to_nat n) s.

(** The exceptions the program can raise.  [SystemError] stands for the
    use of an address at which the store has no object; no address that
    the program obtains is of that kind. *)
Inductive exn : Type :=
| TypeError
| AttributeError
| KeyError (key : string)
| re_error
| AssertionError
| SystemError.

Inductive result (A : Type) : Type :=
| Ok (a : A)
| Raise (e : exn).
Arguments Ok {A} a.
Arguments Raise {A} e.

#[global] Instance result_ret : MRet result := λ A a, Ok a.
#[global] Instance result_bind : MBind result := λ A B f m,
  match m with Ok a => f a | Raise e => Raise e end.

(** ** The data model *)

(** [class Position]: the two attributes set by [__init__].  The
    chromosome is a string or [None] (pysam's [reference_name] of an
    unmapped read), the coordinate an integer. *)
Record Position : Type := mkPosition {
  _chromosome : option string;
  _coordinate : Z }.

(** What [__eq__] can be compared with: another [Position] instance, or an
    object of some other class. *)
Inductive object : Type :=
| PositionObject (p : Position)
| OtherObject.

(** Address of an object in the store. *)
Definition ref : Type := nat.

(** [class Cluster]: the attribute set by [__init__], a [set] of positions
    (see below for the representation of the set). *)
Record Cluster : Type := mkCluster {
  _positions : list Position }.

(** [class Clusters]: the attribute set by [__init__], a [dict] from
    barcodes to [Cluster] instances. *)
Record Clusters : Type := mkClusters {
  _clusters : gmap string ref }.

(** What the Python runtime leaves unspecified: the builtin [hash] of the
    tuple [(chromosome, coordinate)], and the order in which a [set] and
    a [dict] are iterated.  The order is a function of the container's
    state, and enumerates exactly its elements. *)
Class Runtime : Type := {
  hash : option string * Z → Z;
  set_iter : list Position → list Position;
  set_iter_perm : ∀ s, set_iter s ≡ₚ s;
  dict_iter : gmap string ref → list (string * ref);
  dict_iter_perm : ∀ d, dict_iter d ≡ₚ map_to_list d }.

(** A runtime to compute with: sets iterate in insertion order,
    dictionaries in the order of [map_to_list]. *)
Definition simple_runtime : Runtime := {|
  hash := λ '(c, i), from_option (λ s, Z.of_nat (String.length s)) 0 c + 31 * i;
  set_iter := λ s, s;
  set_iter_perm := λ s, reflexivity s;
  dict_iter := map_to_list;
  dict_iter_perm := λ d, reflexivity (map_to_list d) |}.

Module Position.

Definition __init__ (chromosome : option string) (coordinate : Z) : Position :=
  {| _chromosome := chromosome; _coordinate := coordinate |}.

(** [==] on chromosomes: strings by content, [None] only equal to [None]. *)
Definition chromosome_eqb (a b : option string) : bool :=
  match a, b with
  | Some s, Some t => String.eqb s t
  | None, None => true
  | _, _ => false
  end.

Definition __eq__ (self : Position) (other : object) : bool :=
  match other with
  | OtherObject => false
  | PositionObject other =>
      chromosome_eqb (_chromosome self) (_chromosome other)
      && (_coordinate self =? _coordinate other)
  end.

Definition __hash__ {rt : Runtime} (self : Position) : Z :=
  hash (_chromosome self, _coordinate self).

(** [None + ":"] is a [TypeError]. *)
Definition to_string (self : Position) : result string :=
  match _chromosome self with
  | Some chromosome => Ok (chromosome +:+ ":" +:+ str (_coordinate self))
  | None => Raise TypeError
  end.

End Position.

(** ** The builtin [set], holding [Position] instances

    A set is kept as the list of its elements in insertion order.  An
    element is found in the set when an entry has the same hash and
    compares equal with [__eq__]. *)
Definition set_contains {rt : Runtime} (s : list Position) (x : Position) : bool :=
  existsb (λ y, (Position.__hash__ y =? Position.__hash__ x)
                && Position.__eq__ y (PositionObject x)) s.

Definition set_add {rt : Runtime} (s : list Position) (x : Position) : list Position :=
  if set_contains s x then s else s ++ [x].

Definition len {A} (l : list A) : Z := Z.of_nat (length l).

(** ** The store

    [heap] holds the [Cluster] instances and [tables] the [Clusters]
    instances, the address of an instance being its index; [files] holds
    the text files by path. *)
Record state : Type := mkState {
  tables : list Clusters;
  heap : list Cluster;
  files : gmap string string }.

Definition initial : state :=
  {| tables := []; heap := []; files := ∅ |}.

(** Computations: a state transformer with an outcome.  The state reached
    when an exception is raised is kept. *)
Definition M (A : Type) : Type := state → result A * state.

#[global] Instance M_ret : MRet M := λ A a σ, (Ok a, σ).
#[global] Instance M_bind : MBind M := λ A B f m σ,
  match m σ with
  | (Ok a, σ') => f a σ'
  | (Raise e, σ') => (Raise e, σ')
  end.

Definition raise {A} (e : exn) : M A := λ σ, (Raise e, σ).

Definition lift {A} (r : result A) : M A := λ σ, (r, σ).

(** [for x in l: body(x)]. *)
Fixpoint for_each {A} (l : list A) (body : A → M unit) : M unit :=
  match l with
  | [] => mret tt
  | x :: l' => body x ;; for_each l' body
  end.

(** A generator: the computations that produce its successive values. *)
Definition generator (A : Type) : Type := list (M A).

(** [for x in g: body(x)] for a generator [g]. *)
Fixpoint for_each_yield {A} (g : generator A) (body : A → M unit) : M unit :=
  match g with
  | [] => mret tt
  | next :: g' => x ← next; body x ;; for_each_yield g' body
  end.

(** The values a generator yields until it stops or raises, the exception
    if it raised, and the state reached. *)
Fixpoint drain {A} (g : generator A) (σ : state) : list A * option exn * state :=
  match g with
  | [] => ([], None, σ)
  | next :: g' =>
      match next σ with
      | (Ok x, σ') => let '(xs, e, σ'') := drain g' σ' in (x :: xs, e, σ'')
      | (Raise e, σ') => ([], Some e, σ')
      end
  end.

(** *** Objects *)

(** A new [Cluster] instance with the attributes [c]. *)
Definition new_Cluster (c : Cluster) : M ref := λ σ,
  (Ok (length (heap σ)),
   {| tables := tables σ; heap := heap σ ++ [c]; files := files σ |}).

(** The attributes of the [Cluster] instance at [r], and their update. *)
Definition load (r : ref) : M Cluster := λ σ,
  match heap σ !! r with
  | Some c => (Ok c, σ)
  | None => (Raise SystemError, σ)
  end.

Definition store (r : ref) (c : Cluster) : M unit := λ σ,
  match heap σ !! r with
  | Some _ =>
      (Ok tt, {| tables := tables σ; heap := <[r := c]> (heap σ); files := files σ |})
  | None => (Raise SystemError, σ)
  end.

(** A new [Clusters] instance with the attributes [t]. *)
Definition new_Clusters (t : Clusters) : M ref := λ σ,
  (Ok (length (tables σ)),
   {| tables := tables σ ++ [t]; heap := heap σ; files := files σ |}).

(** [self._clusters] for the [Clusters] instance at [self], and its update. *)
Definition load_dict (self : ref) : M (gmap string ref) := λ σ,
  match tables σ !! self with
  | Some t => (Ok (_clusters t), σ)
  | None => (Raise SystemError, σ)
  end.

Definition store_dict (self : ref) (d : gmap string ref) : M unit := λ σ,
  match tables σ !! self with
  | Some _ =>
      (Ok tt, {| tables := <[self := {| _clusters := d |}]> (tables σ);
                 heap := heap σ; files := files σ |})
  | None => (Raise SystemError, σ)
  end.

(** *** The dictionary [self._clusters] *)

(** [key in self._clusters]. *)
Definition dict_contains (self : ref) (key : string) : M bool :=
  d ← load_dict self;
  mret (bool_decide (is_Some (d !! key))).

(** [self._clusters[key]]. *)
Definition dict_getitem (self : ref) (key : string) : M ref :=
  d ← load_dict self;
  match d !! key with
  | Some r => mret r
  | None => raise (KeyError key)
  end.

(** [self._clusters[key] = r]. *)
Definition dict_setitem (self : ref) (key : string) (r : ref) : M unit :=
  d ← load_dict self;
  store_dict self (<[key := r]> d).

(** [del self._clusters[key]]. *)
Definition dict_delitem (self : ref) (key : string) : M unit :=
  d ← load_dict self;
  match d !! key with
  | Some _ => store_dict self (delete key d)
  | None => raise (KeyError key)
  end.

(** [self._clusters.iteritems()]. *)
Definition dict_iteritems {rt : Runtime} (self : ref) : M (list (string * ref)) :=
  d ← load_dict self;
  mret (dict_iter d).

(** *** Files *)

(** [open(path, 'w')] and [f.write(text)]. *)
Definition file_open_w (path : string) : M unit := λ σ,
  (Ok tt, {| tables := tables σ; heap := heap σ;
             files := <[path := ""%string]> (files σ) |}).

Definition file_write (path : string) (text : string) : M unit := λ σ,
  (Ok tt, {| tables := tables σ; heap := heap σ;
             files := alter (λ content, content +:+ text) path (files σ) |}).

(** ** The classes [Cluster] and [Clusters] *)

Module Cluster.

(** [Cluster()]: a new instance, as [__init__] sets it up. *)
Definition __init__ : M ref :=
  new_Cluster {| _positions := [] |}.

Definition add_position {rt : Runtime} (self : ref) (position : Position) : M unit :=
  c ← load self;
  store self {| _positions := set_add (_positions c) position |}.

Definition size (self : ref) : M Z :=
  c ← load self;
  mret (len (_positions c)).

Definition to_string {rt : Runtime} (self : ref) : M string :=
  c ← load self;
  position_strings ← lift (mapM Position.to_string (set_iter (_positions c)));
  mret (str_join TAB position_strings).

End Cluster.

Module Clusters.

(** [Clusters()]: a new instance, as [__init__] sets it up. *)
Definition __init__ : M ref :=
  new_Clusters {| _clusters := ∅ |}.

Definition get_cluster (self : ref) (barcodes : string) : M ref :=
  present ← dict_contains self barcodes;
  (if negb present
   then c ← Cluster.__init__; dict_setitem self barcodes c
   else mret tt) ;;
  dict_getitem self barcodes.

Definition add_position {rt : Runtime} (self : ref) (barcodes : string)
    (position : Position) : M unit :=
  c ← get_cluster self barcodes;
  Cluster.add_position c position.

(** The generator has one value for each item of the dictionary; a value
    is computed when the consumer asks for it. *)
Definition to_strings {rt : Runtime} (self : ref) : M (generator string) :=
  items ← dict_iteritems self;
  mret ((λ '(barcodes, cluster),
           s ← Cluster.to_string cluster;
           mret (barcodes +:+ TAB +:+ s)) <$> items).

Definition remove_cluster (self : ref) (barcodes : string) : M unit :=
  dict_delitem self barcodes.

End Clusters.

(** ** The [re] patterns the program builds

    The fragment of the pattern language that [get_clusters] uses: literal
    characters, escaped punctuation, the class [\w], the greedy repetition
    [+] of a single character, and capturing groups that are not nested.
    The parser answers [re_error] to a text outside the fragment; the
    patterns of this program are inside it.  [re.compile] of Python 2
    refuses a pattern that has 100 capturing groups or more. *)
Inductive atom : Type :=
| Lit (c : ascii)      (* a character, possibly escaped *)
| WordChar.            (* \w *)

Inductive piece : Type :=
| One (a : atom)       (* a *)
| Many1 (a : atom).    (* a+ *)

Inductive item : Type :=
| Plain (p : piece)
| Group (ps : list piece).   (* ( ... ) *)

Definition regex : Type := list item.

(** [\w] on byte strings without flags: [[a-zA-Z0-9_]]. *)
Definition is_word (c : ascii) : bool :=
  let n := nat_of_ascii c in
  ((48 <=? n) && (n <=? 57) || (65 <=? n) && (n <=? 90)
   || (97 <=? n) && (n <=? 122) || (n =? 95))%nat.

Definition is_alnum (c : ascii) : bool :=
  let n := nat_of_ascii c in
  ((48 <=? n) && (n <=? 57) || (65 <=? n) && (n <=? 90)
   || (97 <=? n) && (n <=? 122))%nat.

(** Characters with a meaning of their own in a pattern. *)
Definition is_special (c : ascii) : bool :=
  existsb (Ascii.eqb c) (list_ascii_of_string ".^$*+?{[\|()").

(** Parser state: the items read so far, last first, and the pieces of the
    group being read, if one is open. *)
Definition parser_state : Type := list item * option (list piece).

Definition push (a : atom) (st : parser_state) : parser_state :=
  match st with
  | (items, Some ps) => (items, Some (One a :: ps))
  | (items, None) => (Plain (One a) :: items, None)
  end.

(** [+] applies to the single character before it. *)
Definition repeat_last (st : parser_state) : result parser_state :=
  match st with
  | (items, Some (One a :: ps)) => Ok (items, Some (Many1 a :: ps))
  | (Plain (One a) :: items, None) => Ok (Plain (Many1 a) :: items, None)
  | _ => Raise re_error
  end.

Fixpoint parse (text : string) (st : parser_state) : result regex :=
  match text with
  | EmptyString =>
      match st with
      | (items, None) => Ok (rev items)
      | (_, Some _) => Raise re_error
      end
  | String c text' =>
      if Ascii.eqb c "\" then
        match text' with
        | String e text'' =>
            if Ascii.eqb e "w" then parse text'' (push WordChar st)
            else if is_alnum e then Raise re_error
            else parse text'' (push (Lit e) st)
        | EmptyString => Raise re_error
        end
      else if Ascii.eqb c "(" then
        match st with
        | (items, None) => parse text' (items, Some [])
        | (_, Some _) => Raise re_error
        end
      else if Ascii.eqb c ")" then
        match st with
        | (items, Some ps) => parse text' (Group (rev ps) :: items, None)
        | (_, None) => Raise re_error
        end
      else if Ascii.eqb c "+" then
        match repeat_last st with
        | Ok st' => parse text' st'
        | Raise e => Raise e
        end
      else if is_special c then Raise re_error
      else parse text' (push (Lit c) st)
  end.

(** The number of capturing groups of a pattern. *)
Definition is_group (i : item) : bool :=
  match i with
  | Group _ => true
  | Plain _ => false
  end.

Definition group_count (pattern : regex) : nat :=
  length (List.filter is_group pattern).

(** [re.compile(text)]: the text is parsed, and then [sre_compile] of
    Python 2 checks the number of groups, the whole match counted as one:
    [if p.pattern.groups > 100: raise AssertionError(...)]. *)
Definition re_compile (text : string) : result regex :=
  pattern ← parse text ([], None);
  if (100 <? S (group_count pattern))%nat then Raise AssertionError else Ok pattern.

(** *** Matching

    A backtracking matcher in continuation-passing style: [k] is what
    remains to be matched after the current piece; a repetition tries the
    longest run first and gives characters back when [k] fails. *)
Definition atom_ok (a : atom) (c : ascii) : bool :=
  match a with
  | Lit d => Ascii.eqb c d
  | WordChar => is_word c
  end.

Fixpoint many1 {A} (a : atom) (s : string) (k : string → option A) : option A :=
  match s with
  | String c s' =>
      if atom_ok a c then
        match many1 a s' k with
        | Some x => Some x
        | None => k s'
        end
      else None
  | EmptyString => None
  end.

Definition match_piece {A} (p : piece) (s : string) (k : string → option A) : option A :=
  match p with
  | One a =>
      match s with
      | String c s' => if atom_ok a c then k s' else None
      | EmptyString => None
      end
  | Many1 a => many1 a s k
  end.

Fixpoint match_pieces {A} (ps : list piece) (s : string) (k : string → option A) : option A :=
  match ps with
  | [] => k s
  | p :: ps' => match_piece p s (λ s', match_pieces ps' s' k)
  end.

(** The text a group has consumed: what [s] has before its suffix [s']. *)
Definition consumed (s s' : string) : string :=
  substring 0 (String.length s - String.length s') s.

Fixpoint match_items {A} (r : regex) (s : string) (caps : list string)
    (k : string → list string → option A) : option A :=
  match r with
  | [] => k s caps
  | Plain p :: r' => match_piece p s (λ s', match_items r' s' caps k)
  | Group ps :: r' =>
      match_pieces ps s (λ s', match_items r' s' (caps ++ [consumed s s']) k)
  end.

(** A match object, with what [groups()] returns. *)
Record Match : Type := mkMatch {
  groups : list string }.

(** [pattern.match(s)]: a match that starts at the first character. *)
Definition re_match (pattern : regex) (s : string) : option Match :=
  match_items pattern s [] (λ _ caps, Some (mkMatch caps)).

(** [pattern.search(s)]: the match at the first offset that has one. *)
Fixpoint re_search (pattern : regex) (s : string) : option Match :=
  match re_match pattern s with
  | Some m => Some m
  | None =>
      match s with
      | String _ s' => re_search pattern s'
      | EmptyString => None
      end
  end.

(** ** The drivers *)

(** A record of the alignment file, as pysam presents it. *)
Record AlignedSegment : Type := mkAlignedSegment {
  reference_name : option string;
  reference_start : Z;
  query_name : string }.

(** Lines 114-115: the barcodes of a read name; [None.groups()] is an
    [AttributeError]. *)
Definition barcodes (pattern : regex) (name : string) : result string :=
  match re_search pattern name with
  | Some m => Ok (str_join "." (groups m))
  | None => Raise AttributeError
  end.

(** [bamfile] is the sequence of records that [f.fetch(until_eof = True)]
    reads from the file. *)
Definition get_clusters {rt : Runtime} (bamfile : list AlignedSegment)
    (num_barcodes : Z) : M ref :=
  clusters ← Clusters.__init__;
  pattern ← lift (re_compile ("::" +:+ str_mul num_barcodes "\[(\w+)\]"));
  for_each bamfile (λ read,
    let position := Position.__init__ (reference_name read) (reference_start read) in
    let name := query_name read in
    barcodes ← lift (barcodes pattern name);
    Clusters.add_position clusters barcodes position) ;;
  mret clusters.

Definition write_clusters_to_file {rt : Runtime} (clusters : ref) (outfile : string) : M unit :=
  file_open_w outfile ;;
  g ← Clusters.to_strings clusters;
  for_each_yield g (λ cluster_string,
    file_write outfile cluster_string ;;
    file_write outfile NL).

(** ** Notions the properties are stated with *)

#[global] Instance Position_eq_dec : EqDecision Position.
Proof. solve_decision. Defined.

(** The (chromosome, coordinate) pair of a position. *)
Definition pair_of (p : Position) : option string * Z :=
  (_chromosome p, _coordinate p).

(** The number of distinct (chromosome, coordinate) pairs among [ps]. *)
Definition distinct_pairs (ps : list Position) : nat :=
  size (list_to_set (pair_of <$> ps) : gset (option string * Z)).

(** A new [Cluster], the positions [ps] added one after the other, and
    its [size()]. *)
Definition size_after_adds {rt : Runtime} (ps : list Position) : M Z :=
  c ← Cluster.__init__;
  for_each ps (Cluster.add_position c) ;;
  Cluster.size c.

(** The dictionary of the [Clusters] instance at [self], if there is one. *)
Definition dict_of (σ : state) (self : ref) : option (gmap string ref) :=
  _clusters <$> tables σ !! self.



(** The lines [to_strings()] yields when it is iterated to its end, the
    exception that ended the iteration if one did, and the state reached. *)
Definition render_all {rt : Runtime} (self : ref) (σ : state)
    : list string * option exn * state :=
  match Clusters.to_strings self σ with
  | (Ok g, σ') => drain g σ'
  | (Raise e, σ') => ([], Some e, σ')
  end.

(** The calls a client can make. *)
Inductive call : Type :=
| NewClusters
| GetCluster (self : ref) (barcodes : string)
| AddPosition (self : ref) (barcodes : string) (position : Position)
| ToStrings (self : ref)
| RemoveCluster (self : ref) (barcodes : string).

(** The state after a call, whatever it returned or raised. *)
Definition exec {rt : Runtime} (c : call) (σ : state) : state :=
  match c with
  | NewClusters => (Clusters.__init__ σ).2
  | GetCluster self k => (Clusters.get_cluster self k σ).2
  | AddPosition self k p => (Clusters.add_position self k p σ).2
  | ToStrings self => (render_all self σ).2
  | RemoveCluster self k => (Clusters.remove_cluster self k σ).2
  end.

Definition exec_all {rt : Runtime} (cs : list call) (σ : state) : state :=
  foldl (λ σ c, exec c σ) σ cs.

(** What [Cluster.to_string] returns for the cluster at address [r], and
    the line of the dictionary item [(barcodes, r)]. *)
Definition cluster_string {rt : Runtime} (σ : state) (r : ref) : result string :=
  match heap σ !! r with
  | Some c =>
      position_strings ← mapM Position.to_string (set_iter (_positions c));
      Ok (str_join TAB position_strings)
  | None => Raise SystemError
  end.

Definition line {rt : Runtime} (σ : state) (item : string * ref) : result string :=
  s ← cluster_string σ item.2;
  Ok (item.1 +:+ TAB +:+ s).

(** The computation of the generator of [to_strings] for one item. *)
Definition next_line {rt : Runtime} (item : string * ref) : M string :=
  let '(barcodes, cluster) := item in
  s ← Cluster.to_string cluster;
  mret (barcodes +:+ TAB +:+ s).

(** The values before the first exception, and that exception. *)
Fixpoint collect {A} (rs : list (result A)) : list A * option exn :=
  match rs with
  | [] => ([], None)
  | Ok x :: rs' => let '(xs, e) := collect rs' in (x :: xs, e)
  | Raise e :: _ => ([], Some e)
  end.

(** The text of a file made of [lines], each ended by a newline. *)
Fixpoint file_text (lines : list string) : string :=
  match lines with
  | [] => ""
  | l :: lines' => l +:+ NL +:+ file_text lines'
  end.

(** The pattern of [get_clusters], compiled: [::] and then
    [num_barcodes] times [\[(\w+)\]]. *)
Definition barcode_group : regex :=
  [Plain (One (Lit "[")); Group [Many1 WordChar]; Plain (One (Lit "]"))].

Fixpoint barcode_groups (n : nat) : regex :=
  match n with
  | O => []
  | S n' => barcode_group ++ barcode_groups n'
  end.

Definition pattern (num_barcodes : Z) : regex :=
  Plain (One (Lit ":")) :: Plain (One (Lit ":"))
  :: barcode_groups (Z.to_nat num_barcodes).

(** Every character of [s] is matched by [a]. *)
Fixpoint all_ok (a : atom) (s : string) : bool :=
  match s with
  | EmptyString => true
  | String c s' => atom_ok a c && all_ok a s'
  end.

(** A barcode: one or more word characters. *)
Fixpoint all_word (s : string) : bool :=
  match s with
  | EmptyString => true
  | String c s' => is_word c && all_word s'
  end.

Definition is_barcode (b : string) : bool :=
  match b with
  | EmptyString => false
  | String _ _ => all_word b
  end.

(** [[b1][b2]...]: the barcodes, each in brackets, one after the other. *)
Fixpoint bracketed (bs : list string) : string :=
  match bs with
  | [] => ""
  | b :: bs' => "[" +:+ b +:+ "]" +:+ bracketed bs'
  end.

(** [name] has, after the prefix [pre], the separator [::] and then the
    [N] barcodes [bs] in brackets; what follows them is free. *)
Definition barcodes_at (N : Z) (name pre : string) (bs : list string) : Prop :=
  length bs = Z.to_nat N ∧ forallb is_barcode bs = true
  ∧ ∃ post, name = pre +:+ "::" +:+ bracketed bs +:+ post.


(** Lines 107 and 114-115 together: the barcodes of a read name, for the
    pattern of [num_barcodes] groups. *)
Definition extract (num_barcodes : Z) (name : string) : result string :=
  pattern ← re_compile ("::" +:+ str_mul num_barcodes "\[(\w+)\]");
  barcodes pattern name.

(** The body of the loop of [get_clusters], for the compiled pattern. *)
Definition process {rt : Runtime} (clusters : ref) (pattern : regex)
    (read : AlignedSegment) : M unit :=
  let position := Position.__init__ (reference_name read) (reference_start read) in
  let name := query_name read in
  barcodes ← lift (barcodes pattern name);
  Clusters.add_position clusters barcodes position.

(** The three records of the end-to-end scenario. *)
Definition scenario : list AlignedSegment :=
  [ {| reference_name := Some "chr1"%string; reference_start := 100;
       query_name := "r1::[AA][BB]" |};
    {| reference_name := Some "chr1"%string; reference_start := 100;
       query_name := "r2::[AA][BB]" |};
    {| reference_name := Some "chr2"%string; reference_start := 50;
       query_name := "r3::[CC][DD]" |} ].

(** The whole run: the table is built from the records, then written. *)
Definition run {rt : Runtime} (bamfile : list AlignedSegment) (num_barcodes : Z)
    (outfile : string) : M unit :=
  clusters ← get_clusters bamfile num_barcodes;
  write_clusters_to_file clusters outfile.




(** The table that [get_clusters] builds from one unmapped record, with
    [get_cluster("D")] called on it afterwards. *)
Definition unmapped_then_empty : state :=
  (Clusters.get_cluster 0%nat "D"
     (get_clusters (rt := simple_runtime)
        [ {| reference_name := None; reference_start := 5; query_name := "r::[K]" |} ]
        1 initial).2).2.


(** ** Notions for the further properties *)

(** The positions of the cluster stored under [k] in the table at [self]. *)
Definition positions_of (σ : state) (self : ref) (k : string) : option (list Position) :=
  match dict_of σ self with
  | Some d =>
      match d !! k with
      | Some r => _positions <$> heap σ !! r
      | None => None
      end
  | None => None
  end.

(** The table at [self] is sound: every cluster it refers to is allocated
    and holds no position twice, and two keys never share a cluster. *)
Definition table_ok (σ : state) (self : ref) : Prop :=
  ∃ d, dict_of σ self = Some d
    ∧ (∀ k r, d !! k = Some r → ∃ c, heap σ !! r = Some c ∧ NoDup (_positions c))
    ∧ (∀ k k' r, d !! k = Some r → d !! k' = Some r → k = k').

(** The positions of the cluster at [r]; none when there is no cluster. *)
Definition positions_at (σ : state) (r : ref) : list Position :=
  default [] (_positions <$> heap σ !! r).

(** The position that [get_clusters] builds from a record. *)
Definition position_of (read : AlignedSegment) : Position :=
  Position.__init__ (reference_name read) (reference_start read).

(** Grouping as a function on the records: the positions of every key,
    each once, in the order in which they first come. *)
Definition group_step {rt : Runtime} (N : Z) (m : gmap string (list Position))
    (read : AlignedSegment) : gmap string (list Position) :=
  match extract N (query_name read) with
  | Ok k => <[k := set_add (default [] (m !! k)) (position_of read)]> m
  | Raise _ => m
  end.

Definition group {rt : Runtime} (N : Z) (bamfile : list AlignedSegment)
    : gmap string (list Position) :=
  foldl (group_step N) ∅ bamfile.

(** The text of a position that has a chromosome, of a set of such
    positions, and of a key with its positions. *)
Definition position_text (p : Position) : string :=
  default ""%string (_chromosome p) +:+ ":" +:+ str (_coordinate p).

Definition cluster_text {rt : Runtime} (ps : list Position) : string :=
  str_join TAB (position_text <$> set_iter ps).

Definition line_text {rt : Runtime} (item : string * list Position) : string :=
  item.1 +:+ TAB +:+ cluster_text item.2.

(** The lines of the table [d], in the order in which it is iterated. *)
Definition lines_of {rt : Runtime} (σ : state) (d : gmap string ref) : list string :=
  (λ item, line_text (item.1, positions_at σ item.2)) <$> dict_iter d.

(** A new [Cluster], the positions [ps] added one after the other, and
    its [to_string()]. *)
Definition string_after_adds {rt : Runtime} (ps : list Position) : M string :=
  c ← Cluster.__init__;
  for_each ps (Cluster.add_position c) ;;
  Cluster.to_string c.

(** The character [c] occurs in [s]. *)
Fixpoint str_mem (c : ascii) (s : string) : bool :=
  match s with
  | EmptyString => false
  | String c' s' => Ascii.eqb c' c || str_mem c s'
  end.

(** What [join] puts after the first part. *)
Definition join_tail (parts : list string) : string :=
  match parts with
  | [] => ""
  | _ :: _ => "." +:+ str_join "." parts
  end.

(** * Properties *)

(** ** Running computations *)

Lemma bind_run {A B} (m : M A) (f : A → M B) (σ : state) :
  (m ≫= f) σ =
  match m σ with
  | (Ok a, σ') => f a σ'
  | (Raise e, σ') => (Raise e, σ')
  end.
Proof. reflexivity. Qed.

Lemma ret_run {A} (a : A) (σ : state) : (mret a : M A) σ = (Ok a, σ).
Proof. reflexivity. Qed.

Lemma state_eta (σ : state) :
  {| tables := tables σ; heap := heap σ; files := files σ |} = σ.
Proof. by destruct σ. Qed.

Lemma for_each_cons {A} (x : A) (l : list A) (body : A → M unit) (σ : state) :
  for_each (x :: l) body σ =
  match body x σ with
  | (Ok _, σ') => for_each l body σ'
  | (Raise e, σ') => (Raise e, σ')
  end.
Proof. reflexivity. Qed.


Lemma mapM_result_cons {A B} (f : A → result B) (x : A) (l : list A) :
  mapM f (x :: l) =
  match f x with
  | Ok y =>
      match mapM f l with
      | Ok ys => Ok (y :: ys)
      | Raise e => Raise e
      end
  | Raise e => Raise e
  end.
Proof. reflexivity. Qed.

(** ** Strings *)

Lemma str_app_cons (c : ascii) (s1 s2 : string) :
  String c s1 +:+ s2 = String c (s1 +:+ s2).
Proof. reflexivity. Qed.

Lemma str_app_nil_l (s : string) : "" +:+ s = s.
Proof. reflexivity. Qed.

Lemma str_app_assoc (s1 s2 s3 : string) :
  (s1 +:+ s2) +:+ s3 = s1 +:+ (s2 +:+ s3).
Proof.
  induction s1 as [|c s1 IH]; [done|]. by rewrite !str_app_cons, IH.
Qed.

Lemma str_app_nil_r (s : string) : s +:+ "" = s.
Proof.
  induction s as [|c s IH]; [done|]. by rewrite str_app_cons, IH.
Qed.

Lemma str_length_app (s1 s2 : string) :
  String.length (s1 +:+ s2) = (String.length s1 + String.length s2)%nat.
Proof.
  induction s1 as [|c s1 IH]; [done|]. rewrite str_app_cons. simpl. by rewrite IH.
Qed.

Lemma substring_app (b rest : string) :
  substring 0 (String.length b) (b +:+ rest) = b.
Proof.
  induction b as [|c b IH].
  - rewrite str_app_nil_l. by destruct rest.
  - rewrite str_app_cons. simpl. by rewrite IH.
Qed.

Lemma consumed_app (b rest : string) : consumed (b +:+ rest) rest = b.
Proof.
  unfold consumed. rewrite str_length_app.
  replace (String.length b + String.length rest - String.length rest)%nat
    with (String.length b) by lia.
  apply substring_app.
Qed.

(** ** Position *)

Lemma chromosome_eqb_eq (a b : option string) :
  Position.chromosome_eqb a b = true ↔ a = b.
Proof.
  destruct a as [s|], b as [t|]; simpl; try (split; congruence).
  rewrite String.eqb_eq. split; congruence.
Qed.

Lemma Position_ext (p q : Position) :
  _chromosome p = _chromosome q → _coordinate p = _coordinate q → p = q.
Proof. destruct p, q; simpl; congruence. Qed.

Lemma eq_Position_iff (p q : Position) :
  Position.__eq__ p (PositionObject q) = true ↔
  _chromosome p = _chromosome q ∧ _coordinate p = _coordinate q.
Proof.
  unfold Position.__eq__.
  rewrite andb_true_iff, chromosome_eqb_eq, Z.eqb_eq. reflexivity.
Qed.

Lemma eq_Position_true (p q : Position) :
  Position.__eq__ p (PositionObject q) = true ↔ p = q.
Proof.
  rewrite eq_Position_iff. split.
  - intros [Hc Hi]. by apply Position_ext.
  - by intros ->.
Qed.



(** C4: [p1 == p2] holds exactly when the chromosomes are equal and the
    coordinates are equal; equal positions have equal hashes; positions
    that differ in a field are unequal. *)
Theorem Position_eq_hash {rt : Runtime} (p1 p2 : Position) :
  (Position.__eq__ p1 (PositionObject p2) = true ↔
     _chromosome p1 = _chromosome p2 ∧ _coordinate p1 = _coordinate p2)
  ∧ (Position.__eq__ p1 (PositionObject p2) = true →
     Position.__hash__ p1 = Position.__hash__ p2)
  ∧ (_chromosome p1 ≠ _chromosome p2 ∨ _coordinate p1 ≠ _coordinate p2 →
     Position.__eq__ p1 (PositionObject p2) = false).
Proof.
  split; [apply eq_Position_iff|]. split.
  - intros Heq. apply eq_Position_true in Heq. by subst.
  - intros Hne. apply not_true_is_false. rewrite eq_Position_iff.
    intros [Hc Hi]. destruct Hne; contradiction.
Qed.

(** ** The set of positions *)

Lemma set_contains_elem_of {rt : Runtime} (s : list Position) (x : Position) :
  set_contains s x = true ↔ x ∈ s.
Proof.
  unfold set_contains. rewrite existsb_exists. split.
  - intros (y & Hy & Hxy). apply andb_true_iff in Hxy as [_ Hxy].
    apply eq_Position_true in Hxy. subst. by apply list_elem_of_In.
  - intros Hx. exists x. split; [by apply list_elem_of_In|].
    apply andb_true_iff. split; [apply Z.eqb_refl | by apply eq_Position_true].
Qed.

Lemma set_add_elem {rt : Runtime} (s : list Position) (x : Position) :
  x ∈ s → set_add s x = s.
Proof.
  intros Hx. unfold set_add.
  by rewrite (proj2 (set_contains_elem_of s x) Hx).
Qed.

Lemma set_add_new {rt : Runtime} (s : list Position) (x : Position) :
  x ∉ s → set_add s x = s ++ [x].
Proof.
  intros Hx. unfold set_add.
  destruct (set_contains s x) eqn:E; [|done].
  by apply set_contains_elem_of in E.
Qed.

Lemma elem_of_set_add {rt : Runtime} (s : list Position) (x y : Position) :
  y ∈ set_add s x ↔ y ∈ s ∨ y = x.
Proof.
  destruct (decide (x ∈ s)) as [Hx|Hx].
  - rewrite set_add_elem by done. split; [by left|]. by intros [?| ->].
  - rewrite set_add_new by done. rewrite elem_of_app, list_elem_of_singleton. done.
Qed.

Lemma NoDup_set_add {rt : Runtime} (s : list Position) (x : Position) :
  NoDup s → NoDup (set_add s x).
Proof.
  intros Hs. destruct (decide (x ∈ s)) as [Hx|Hx].
  - by rewrite set_add_elem.
  - rewrite set_add_new by done. apply NoDup_app. split; [done|].
    split; [|apply NoDup_singleton].
    intros y Hy Hy'. apply list_elem_of_singleton in Hy'. by subst.
Qed.

(** The set built by adding [ps] to [s], one after the other. *)
Lemma elem_of_foldl_set_add {rt : Runtime} (ps s : list Position) (y : Position) :
  y ∈ foldl set_add s ps ↔ y ∈ s ∨ y ∈ ps.
Proof.
  revert s. induction ps as [|p ps IH]; intros s; simpl.
  - rewrite elem_of_nil. tauto.
  - rewrite IH, elem_of_set_add, elem_of_cons. tauto.
Qed.

Lemma NoDup_foldl_set_add {rt : Runtime} (ps s : list Position) :
  NoDup s → NoDup (foldl set_add s ps).
Proof.
  revert s. induction ps as [|p ps IH]; intros s Hs; simpl; [done|].
  by apply IH, NoDup_set_add.
Qed.

Lemma pair_of_inj : Inj (=) (=) pair_of.
Proof. intros [c i] [c' i']. unfold pair_of. simpl. congruence. Qed.

Lemma length_foldl_set_add {rt : Runtime} (ps : list Position) :
  length (foldl set_add [] ps) = distinct_pairs ps.
Proof.
  unfold distinct_pairs.
  assert (Hnd : NoDup (pair_of <$> foldl set_add [] ps)).
  { pose proof pair_of_inj.
    apply (NoDup_fmap_2 pair_of), NoDup_foldl_set_add, NoDup_nil_2. }
  rewrite <- (length_fmap pair_of).
  rewrite <- (size_list_to_set (C := gset (option string * Z)) _ Hnd).
  f_equal. apply set_eq. intros x.
  rewrite !elem_of_list_to_set, !list_elem_of_fmap.
  split; intros (p & -> & Hp); exists p; (split; [done|]).
  - apply elem_of_foldl_set_add in Hp as [Hp|Hp]; [|done].
    by apply elem_of_nil in Hp.
  - apply elem_of_foldl_set_add. by right.
Qed.

Lemma distinct_pairs_same_elements (ps ps' : list Position) :
  (∀ p, p ∈ ps ↔ p ∈ ps') → distinct_pairs ps = distinct_pairs ps'.
Proof.
  intros Hsame. unfold distinct_pairs. f_equal. apply set_eq. intros x.
  rewrite !elem_of_list_to_set, !list_elem_of_fmap.
  split; intros (p & -> & Hp); exists p; (split; [done|]); by apply Hsame.
Qed.

(** ** Cluster *)

Lemma Cluster_init_run (σ : state) :
  Cluster.__init__ σ =
  (Ok (length (heap σ)),
   {| tables := tables σ; heap := heap σ ++ [mkCluster []]; files := files σ |}).
Proof. reflexivity. Qed.

Lemma Cluster_add_position_run {rt : Runtime} (σ : state) (r : ref) (c : Cluster)
    (p : Position) :
  heap σ !! r = Some c →
  Cluster.add_position r p σ =
  (Ok tt,
   {| tables := tables σ;
      heap := <[r := mkCluster (set_add (_positions c) p)]> (heap σ);
      files := files σ |}).
Proof.
  intros Hr. unfold Cluster.add_position. rewrite bind_run.
  unfold load, store. by rewrite Hr, Hr.
Qed.

Lemma Cluster_add_position_dangling {rt : Runtime} (σ : state) (r : ref) (p : Position) :
  heap σ !! r = None → Cluster.add_position r p σ = (Raise SystemError, σ).
Proof.
  intros Hr. unfold Cluster.add_position. rewrite bind_run.
  unfold load. by rewrite Hr.
Qed.

Lemma Cluster_size_run (σ : state) (r : ref) (c : Cluster) :
  heap σ !! r = Some c → Cluster.size r σ = (Ok (len (_positions c)), σ).
Proof.
  intros Hr. unfold Cluster.size. rewrite bind_run. unfold load. by rewrite Hr.
Qed.

Lemma for_each_add_position_run {rt : Runtime} (ps : list Position) (σ : state)
    (r : ref) (c : Cluster) :
  heap σ !! r = Some c →
  for_each ps (Cluster.add_position r) σ =
  (Ok tt,
   {| tables := tables σ;
      heap := <[r := mkCluster (foldl set_add (_positions c) ps)]> (heap σ);
      files := files σ |}).
Proof.
  revert σ c. induction ps as [|p ps IH]; intros σ c Hr; simpl.
  - rewrite ret_run. destruct c as [s]. simpl.
    by rewrite list_insert_id, state_eta.
  - rewrite bind_run, (Cluster_add_position_run σ r c) by done.
    rewrite (IH _ (mkCluster (set_add (_positions c) p))); simpl.
    + by rewrite list_insert_insert_eq.
    + apply list_lookup_insert_eq. by eapply lookup_lt_Some.
Qed.

Lemma size_after_adds_run {rt : Runtime} (ps : list Position) (σ : state) :
  size_after_adds ps σ =
  (Ok (Z.of_nat (distinct_pairs ps)),
   {| tables := tables σ;
      heap := heap σ ++ [mkCluster (foldl set_add [] ps)];
      files := files σ |}).
Proof.
  unfold size_after_adds. rewrite bind_run, Cluster_init_run, bind_run.
  rewrite (for_each_add_position_run ps _ _ (mkCluster [])); simpl.
  2:{ by rewrite lookup_app_r, Nat.sub_diag by lia. }
  rewrite (Cluster_size_run _ _ (mkCluster (foldl set_add [] ps))); simpl.
  2:{ rewrite list_lookup_insert_eq; [done|]. rewrite length_app. simpl. lia. }
  unfold len. rewrite length_foldl_set_add. do 2 f_equal.
  rewrite insert_app_r_alt, Nat.sub_diag by lia. done.
Qed.

(** C5: after any sequence of [add_position] calls on a new [Cluster],
    [size()] is the number of distinct (chromosome, coordinate) pairs of
    the sequence: it is the same for two sequences with the same
    positions, whatever the order and the repetitions. *)
Theorem Cluster_size_distinct {rt : Runtime} (ps : list Position) (σ : state) :
  (size_after_adds ps σ).1 = Ok (Z.of_nat (distinct_pairs ps))
  ∧ (∀ ps', (∀ p, p ∈ ps ↔ p ∈ ps') →
       (size_after_adds ps' σ).1 = (size_after_adds ps σ).1).
Proof.
  split.
  - by rewrite size_after_adds_run.
  - intros ps' Hsame. rewrite !size_after_adds_run. simpl.
    by rewrite (distinct_pairs_same_elements ps ps').
Qed.

(** ** The dictionary of a table *)

Lemma dict_of_Some (σ : state) (t : ref) (d : gmap string ref) :
  dict_of σ t = Some d ↔ tables σ !! t = Some (mkClusters d).
Proof.
  unfold dict_of. destruct (tables σ !! t) as [[d']|]; simpl; [|done].
  split; congruence.
Qed.

Lemma load_dict_run (σ : state) (t : ref) (d : gmap string ref) :
  dict_of σ t = Some d → load_dict t σ = (Ok d, σ).
Proof. intros Ht%dict_of_Some. unfold load_dict. by rewrite Ht. Qed.

Lemma load_dict_dangling (σ : state) (t : ref) :
  dict_of σ t = None → load_dict t σ = (Raise SystemError, σ).
Proof.
  unfold dict_of, load_dict. by destruct (tables σ !! t).
Qed.

Lemma store_dict_run (σ : state) (t : ref) (d d' : gmap string ref) :
  dict_of σ t = Some d →
  store_dict t d' σ =
  (Ok tt, {| tables := <[t := mkClusters d']> (tables σ);
             heap := heap σ; files := files σ |}).
Proof. intros Ht%dict_of_Some. unfold store_dict. by rewrite Ht. Qed.

Lemma dict_of_store (σ : state) (t t' : ref) (d d' : gmap string ref)
    (h : list Cluster) (fs : gmap string string) :
  dict_of σ t = Some d →
  dict_of {| tables := <[t := mkClusters d']> (tables σ); heap := h; files := fs |} t'
  = if decide (t = t') then Some d' else dict_of σ t'.
Proof.
  intros Ht%dict_of_Some. unfold dict_of. simpl. case_decide as Htt.
  - subst. rewrite list_lookup_insert_eq; [done|]. by eapply lookup_lt_Some.
  - by rewrite list_lookup_insert_ne.
Qed.

Lemma dict_of_heap (σ : state) (t : ref) (h : list Cluster) (fs : gmap string string) :
  dict_of {| tables := tables σ; heap := h; files := fs |} t = dict_of σ t.
Proof. reflexivity. Qed.

Lemma dict_contains_run (σ : state) (t : ref) (d : gmap string ref) (k : string) :
  dict_of σ t = Some d →
  dict_contains t k σ = (Ok (bool_decide (is_Some (d !! k))), σ).
Proof.
  intros Ht. unfold dict_contains. by rewrite bind_run, (load_dict_run σ t d).
Qed.

Lemma dict_getitem_run (σ : state) (t : ref) (d : gmap string ref) (k : string) :
  dict_of σ t = Some d →
  dict_getitem t k σ =
  match d !! k with
  | Some r => (Ok r, σ)
  | None => (Raise (KeyError k), σ)
  end.
Proof.
  intros Ht. unfold dict_getitem. rewrite bind_run, (load_dict_run σ t d) by done.
  by destruct (d !! k).
Qed.

Lemma dict_setitem_run (σ : state) (t : ref) (d : gmap string ref) (k : string) (r : ref) :
  dict_of σ t = Some d →
  dict_setitem t k r σ =
  (Ok tt, {| tables := <[t := mkClusters (<[k := r]> d)]> (tables σ);
             heap := heap σ; files := files σ |}).
Proof.
  intros Ht. unfold dict_setitem. rewrite bind_run, (load_dict_run σ t d) by done.
  by apply (store_dict_run σ t d).
Qed.

Lemma dict_delitem_run (σ : state) (t : ref) (d : gmap string ref) (k : string) :
  dict_of σ t = Some d →
  dict_delitem t k σ =
  match d !! k with
  | Some _ =>
      (Ok tt, {| tables := <[t := mkClusters (delete k d)]> (tables σ);
                 heap := heap σ; files := files σ |})
  | None => (Raise (KeyError k), σ)
  end.
Proof.
  intros Ht. unfold dict_delitem. rewrite bind_run, (load_dict_run σ t d) by done.
  destruct (d !! k); [|done]. by apply (store_dict_run σ t d).
Qed.

(** ** Clusters *)

Lemma get_cluster_present (σ : state) (t : ref) (d : gmap string ref)
    (k : string) (r : ref) :
  dict_of σ t = Some d → d !! k = Some r →
  Clusters.get_cluster t k σ = (Ok r, σ).
Proof.
  intros Ht Hk. unfold Clusters.get_cluster.
  rewrite bind_run, (dict_contains_run σ t d) by done.
  rewrite bool_decide_eq_true_2 by (by rewrite Hk). simpl.
  rewrite bind_run, ret_run, (dict_getitem_run σ t d) by done.
  by rewrite Hk.
Qed.

Lemma get_cluster_absent (σ : state) (t : ref) (d : gmap string ref) (k : string) :
  dict_of σ t = Some d → d !! k = None →
  Clusters.get_cluster t k σ =
  (Ok (length (heap σ)),
   {| tables := <[t := mkClusters (<[k := length (heap σ)]> d)]> (tables σ);
      heap := heap σ ++ [mkCluster []];
      files := files σ |}).
Proof.
  intros Ht Hk. unfold Clusters.get_cluster.
  rewrite bind_run, (dict_contains_run σ t d) by done.
  rewrite bool_decide_eq_false_2 by (rewrite Hk; by intros [? ?]). simpl.
  rewrite !bind_run, Cluster_init_run.
  rewrite (dict_setitem_run _ t d) by done. simpl.
  rewrite (dict_getitem_run _ t (<[k := length (heap σ)]> d)).
  - by rewrite lookup_insert_eq.
  - rewrite (dict_of_store σ t t d) by done. by rewrite decide_True.
Qed.

Lemma get_cluster_dangling (σ : state) (t : ref) (k : string) :
  dict_of σ t = None → Clusters.get_cluster t k σ = (Raise SystemError, σ).
Proof.
  intros Ht. unfold Clusters.get_cluster, dict_contains.
  by rewrite !bind_run, load_dict_dangling.
Qed.

(** The cluster stored under [k] in the table at [t]. *)
Lemma get_cluster_total (σ : state) (t : ref) (d : gmap string ref) (k : string) :
  dict_of σ t = Some d →
  ∃ r σ' d', Clusters.get_cluster t k σ = (Ok r, σ')
             ∧ dict_of σ' t = Some d' ∧ d' !! k = Some r.
Proof.
  intros Ht. destruct (d !! k) as [r|] eqn:Hk.
  - exists r, σ, d. by rewrite (get_cluster_present σ t d k r).
  - eexists _, _, _. rewrite (get_cluster_absent σ t d) by done.
    split; [done|]. rewrite (dict_of_store σ t t d) by done.
    rewrite decide_True by done. split; [done|]. apply lookup_insert_eq.
Qed.

(** ** Rendering reads the state and leaves it as it is *)

Lemma Cluster_to_string_run {rt : Runtime} (σ : state) (r : ref) :
  Cluster.to_string r σ = (cluster_string σ r, σ).
Proof.
  unfold Cluster.to_string, cluster_string. rewrite bind_run. unfold load.
  destruct (heap σ !! r) as [c|]; [|done].
  rewrite bind_run. unfold lift.
  by destruct (mapM Position.to_string (set_iter (_positions c))).
Qed.

Lemma next_line_run {rt : Runtime} (σ : state) (item : string * ref) :
  next_line item σ = (line σ item, σ).
Proof.
  destruct item as [k r]. unfold next_line, line. simpl.
  rewrite bind_run, Cluster_to_string_run.
  by destruct (cluster_string σ r).
Qed.

Lemma to_strings_run {rt : Runtime} (σ : state) (t : ref) (d : gmap string ref) :
  dict_of σ t = Some d →
  Clusters.to_strings t σ = (Ok (next_line <$> dict_iter d), σ).
Proof.
  intros Ht. unfold Clusters.to_strings, dict_iteritems.
  by rewrite !bind_run, (load_dict_run σ t d).
Qed.

Lemma to_strings_dangling {rt : Runtime} (σ : state) (t : ref) :
  dict_of σ t = None → Clusters.to_strings t σ = (Raise SystemError, σ).
Proof.
  intros Ht. unfold Clusters.to_strings, dict_iteritems.
  by rewrite !bind_run, load_dict_dangling.
Qed.

Lemma drain_next_line {rt : Runtime} (σ : state) (items : list (string * ref)) :
  drain (next_line <$> items) σ = (collect (line σ <$> items), σ).
Proof.
  induction items as [|item items IH]; [done|].
  rewrite !fmap_cons. simpl. rewrite next_line_run.
  destruct (line σ item) as [l|e]; [|done].
  rewrite IH. by destruct (collect _).
Qed.

Lemma render_all_run {rt : Runtime} (σ : state) (t : ref) :
  render_all t σ =
  match dict_of σ t with
  | Some d => (collect (line σ <$> dict_iter d), σ)
  | None => ([], Some SystemError, σ)
  end.
Proof.
  unfold render_all. destruct (dict_of σ t) as [d|] eqn:Ht.
  - by rewrite (to_strings_run σ t d), drain_next_line.
  - by rewrite to_strings_dangling.
Qed.

Lemma render_all_state {rt : Runtime} (σ : state) (t : ref) :
  (render_all t σ).2 = σ.
Proof. rewrite render_all_run. by destruct (dict_of σ t). Qed.

(** ** The cluster of a key is kept *)

Lemma add_position_tables {rt : Runtime} (σ : state) (r : ref) (p : Position) :
  tables (Cluster.add_position r p σ).2 = tables σ.
Proof.
  destruct (heap σ !! r) as [c|] eqn:Hr.
  - by rewrite (Cluster_add_position_run σ r c).
  - by rewrite Cluster_add_position_dangling.
Qed.

Lemma get_cluster_keeps (σ : state) (t t' : ref) (k k' : string)
    (d : gmap string ref) (r : ref) :
  dict_of σ t = Some d → d !! k = Some r →
  ∃ d', dict_of (Clusters.get_cluster t' k' σ).2 t = Some d' ∧ d' !! k = Some r.
Proof.
  intros Ht Hk. destruct (dict_of σ t') as [d0|] eqn:Ht'.
  - destruct (d0 !! k') as [r'|] eqn:Hk'.
    + rewrite (get_cluster_present σ t' d0 k' r') by done. by exists d.
    + rewrite (get_cluster_absent σ t' d0) by done. simpl.
      rewrite (dict_of_store σ t' t d0) by done. case_decide as Htt.
      * subst t'. eexists. split; [done|].
        assert (d0 = d) as -> by congruence.
        rewrite lookup_insert_ne; [done|]. intros ->. congruence.
      * by exists d.
  - rewrite get_cluster_dangling by done. by exists d.
Qed.

(** A call that does not remove [k] from the table at [t] keeps the
    cluster stored there under [k]. *)
Lemma exec_keeps_cluster {rt : Runtime} (c : call) (σ : state) (t : ref)
    (k : string) (d : gmap string ref) (r : ref) :
  c ≠ RemoveCluster t k →
  dict_of σ t = Some d → d !! k = Some r →
  ∃ d', dict_of (exec c σ) t = Some d' ∧ d' !! k = Some r.
Proof.
  intros Hc Ht Hk. destruct c as [|t' k'|t' k' p|t'|t' k']; simpl.
  - exists d. split; [|done]. apply dict_of_Some. apply dict_of_Some in Ht.
    simpl. rewrite lookup_app_l; [done|]. by eapply lookup_lt_Some.
  - by apply (get_cluster_keeps σ t t' k k' d r).
  - unfold Clusters.add_position. rewrite bind_run.
    destruct (get_cluster_keeps σ t t' k k' d r Ht Hk) as (d' & Ht' & Hk').
    destruct (Clusters.get_cluster t' k' σ) as [[c|e] σ']; simpl in *.
    + exists d'. split; [|done]. unfold dict_of. by rewrite add_position_tables.
    + by exists d'.
  - rewrite render_all_state. by exists d.
  - unfold Clusters.remove_cluster.
    destruct (dict_of σ t') as [d0|] eqn:Ht'.
    2:{ unfold dict_delitem. rewrite bind_run, load_dict_dangling by done.
        by exists d. }
    rewrite (dict_delitem_run σ t' d0) by done.
    destruct (d0 !! k') as [r'|] eqn:Hk'; [|by exists d]. simpl.
    rewrite (dict_of_store σ t' t d0) by done. case_decide as Htt; [|by exists d].
    subst t'. eexists. split; [done|]. assert (d0 = d) as -> by congruence.
    rewrite lookup_delete_ne; [done|]. intros ->. by apply Hc.
Qed.

Lemma exec_all_keeps_cluster {rt : Runtime} (cs : list call) (σ : state) (t : ref)
    (k : string) (d : gmap string ref) (r : ref) :
  RemoveCluster t k ∉ cs →
  dict_of σ t = Some d → d !! k = Some r →
  ∃ d', dict_of (exec_all cs σ) t = Some d' ∧ d' !! k = Some r.
Proof.
  revert σ d. induction cs as [|c cs IH]; intros σ d Hcs Ht Hk; simpl.
  - by exists d.
  - apply not_elem_of_cons in Hcs as [Hc Hcs].
    destruct (exec_keeps_cluster c σ t k d r) as (d' & Ht' & Hk'); [congruence|done..|].
    by apply (IH _ d').
Qed.

(** C6: [get_cluster(k)] returns the cluster stored under [k] when there
    is one, and otherwise allocates one empty cluster, stores it under [k]
    and returns it; a second call returns the same instance; and as long
    as [k] is not removed from the table, every later call returns that
    instance. *)
Theorem get_cluster_same_instance {rt : Runtime} (σ : state) (self : ref)
    (d : gmap string ref) (k : string) :
  dict_of σ self = Some d →
  (∀ r, d !! k = Some r → Clusters.get_cluster self k σ = (Ok r, σ))
  ∧ (d !! k = None →
     Clusters.get_cluster self k σ =
     (Ok (length (heap σ)),
      {| tables := <[self := mkClusters (<[k := length (heap σ)]> d)]> (tables σ);
         heap := heap σ ++ [mkCluster []];
         files := files σ |}))
  ∧ (∃ r σ1, Clusters.get_cluster self k σ = (Ok r, σ1)
       ∧ Clusters.get_cluster self k σ1 = (Ok r, σ1)
       ∧ ∀ cs, RemoveCluster self k ∉ cs →
           Clusters.get_cluster self k (exec_all cs σ1) = (Ok r, exec_all cs σ1)).
Proof.
  intros Ht.
  split; [intros r; by apply get_cluster_present|].
  split; [by apply get_cluster_absent|].
  destruct (get_cluster_total σ self d k Ht) as (r & σ1 & d1 & Hrun & Ht1 & Hk1).
  exists r, σ1. split; [done|].
  split; [by apply (get_cluster_present σ1 self d1)|].
  intros cs Hcs.
  destruct (exec_all_keeps_cluster cs σ1 self k d1 r Hcs Ht1 Hk1) as (d' & Ht' & Hk').
  by apply (get_cluster_present _ self d').
Qed.

Lemma get_cluster_same_instance_witness :
  let σ := {| tables := [mkClusters {[ "AA.BB"%string := 0%nat ]}];
              heap := [mkCluster [mkPosition (Some "chr1"%string) 100]];
              files := ∅ |} in
  ∃ r σ1, Clusters.get_cluster 0%nat "CC.DD" σ = (Ok r, σ1)
    ∧ Clusters.get_cluster 0%nat "CC.DD" σ1 = (Ok r, σ1)
    ∧ ∀ cs, RemoveCluster 0%nat "CC.DD" ∉ cs →
        Clusters.get_cluster 0%nat "CC.DD" (exec_all (rt := simple_runtime) cs σ1)
        = (Ok r, exec_all (rt := simple_runtime) cs σ1).
Proof.
  intros σ.
  apply (get_cluster_same_instance (rt := simple_runtime) σ 0%nat
           {[ "AA.BB"%string := 0%nat ]} "CC.DD").
  reflexivity.
Defined.

(** C7: [remove_cluster(k)] deletes the entry of [k] and nothing else when
    [k] is in the table, and raises [KeyError] and changes nothing when it
    is not. *)
Theorem remove_cluster_entry (σ : state) (self : ref) (d : gmap string ref) (k : string) :
  dict_of σ self = Some d →
  (is_Some (d !! k) →
     ∃ σ' d', Clusters.remove_cluster self k σ = (Ok tt, σ')
       ∧ dict_of σ' self = Some d'
       ∧ d' !! k = None
       ∧ (∀ k', k' ≠ k → d' !! k' = d !! k')
       ∧ (∀ t, t ≠ self → dict_of σ' t = dict_of σ t)
       ∧ heap σ' = heap σ ∧ files σ' = files σ)
  ∧ (d !! k = None →
     Clusters.remove_cluster self k σ = (Raise (KeyError k), σ)).
Proof.
  intros Ht. unfold Clusters.remove_cluster.
  rewrite (dict_delitem_run σ self d) by done. split.
  - intros [r Hk]. rewrite Hk.
    eexists _, (delete k d). split; [done|].
    split. { rewrite (dict_of_store σ self self d) by done. by rewrite decide_True. }
    split; [apply lookup_delete_eq|].
    split. { intros k' Hk'. by apply lookup_delete_ne. }
    split; [|done].
    intros t Hne. rewrite (dict_of_store σ self t d) by done.
    by rewrite decide_False.
  - by intros ->.
Qed.

Lemma remove_cluster_entry_witness :
  let σ := {| tables := [mkClusters {[ "AA.BB"%string := 0%nat ]}];
              heap := [mkCluster [mkPosition (Some "chr1"%string) 100]];
              files := ∅ |} in
  (∃ σ' d', Clusters.remove_cluster 0%nat "AA.BB" σ = (Ok tt, σ')
     ∧ dict_of σ' 0%nat = Some d'
     ∧ d' !! "AA.BB"%string = None
     ∧ (∀ k', k' ≠ "AA.BB"%string → d' !! k' = ({[ "AA.BB"%string := 0%nat ]} : gmap string ref) !! k')
     ∧ (∀ t, t ≠ 0%nat → dict_of σ' t = dict_of σ t)
     ∧ heap σ' = heap σ ∧ files σ' = files σ)
  ∧ Clusters.remove_cluster 0%nat "CC.DD" σ = (Raise (KeyError "CC.DD"), σ).
Proof.
  intros σ. split.
  - apply (remove_cluster_entry σ 0%nat {[ "AA.BB"%string := 0%nat ]} "AA.BB");
      [reflexivity|]. by exists 0%nat.
  - apply (remove_cluster_entry σ 0%nat {[ "AA.BB"%string := 0%nat ]} "CC.DD");
      reflexivity.
Defined.

(** ** Rendering the table *)

Lemma collect_Permutation {A} (rs rs' : list (result A)) :
  rs ≡ₚ rs' → (collect rs).2 = None →
  (collect rs').2 = None ∧ (collect rs').1 ≡ₚ (collect rs).1.
Proof.
  induction 1 as [|[x|e] rs rs' Hp IH|[x|e] [y|e'] rs|rs1 rs2 rs3 H12 IH12 H23 IH23];
    simpl; try done.
  - destruct (collect rs) as [xs o], (collect rs') as [xs' o']. simpl in *.
    intros ->. destruct IH as [-> IH]; [done|]. split; [done|]. by constructor.
  - destruct (collect rs) as [xs o]; simpl. intros ->. split; [done|]. by constructor.
  - intros Hnone. destruct (IH12 Hnone) as [H2 Hp2].
    destruct (IH23 H2) as [H3 Hp3]. split; [done|]. by etrans.
Qed.

Lemma collect_elem_of {A B} (f : A → result B) (l : list A) (x : A) (y : B) :
  x ∈ l → f x = Ok y →
  y ∈ (collect (f <$> l)).1 ∨ is_Some (collect (f <$> l)).2.
Proof.
  intros Hx Hfx. induction l as [|a l IH]; [by apply elem_of_nil in Hx|].
  rewrite fmap_cons. simpl. destruct (f a) as [b|e] eqn:Hfa; [|right; by eexists].
  destruct (collect (f <$> l)) as [ys o]; simpl in *.
  apply elem_of_cons in Hx as [->|Hx].
  - left. rewrite Hfa in Hfx. injection Hfx as ->. apply elem_of_cons. by left.
  - destruct (IH Hx) as [Hy|Ho]; [left|by right]. apply elem_of_cons. by right.
Qed.


Lemma line_set_iter (rt rt' : Runtime) (σ : state) (item : string * ref) :
  (∀ s, @set_iter rt' s = @set_iter rt s) → @line rt' σ item = @line rt σ item.
Proof.
  intros Hiter. unfold line, cluster_string.
  destruct (heap σ !! item.2) as [c|]; [|done]. by rewrite Hiter.
Qed.

Lemma cluster_string_heap {rt : Runtime} (σ σ' : state) (r : ref) :
  heap σ = heap σ' → cluster_string σ r = cluster_string σ' r.
Proof. unfold cluster_string. by intros ->. Qed.

Lemma line_heap {rt : Runtime} (σ σ' : state) (item : string * ref) :
  heap σ = heap σ' → line σ item = line σ' item.
Proof. intros Hh. unfold line. by rewrite (cluster_string_heap σ σ'). Qed.

(** C8: rendering the table leaves the state as it is, and rendering it
    again yields the same lines and ends the same way; a runtime that
    iterates the dictionary in another order yields the same lines as a
    multiset. *)
Theorem render_all_twice {rt : Runtime} (self : ref) (σ : state) :
  (render_all self σ).2 = σ
  ∧ (render_all self (render_all self σ).2).1.1 ≡ₚ (render_all self σ).1.1
  ∧ (render_all self (render_all self σ).2).1.2 = (render_all self σ).1.2
  ∧ (∀ rt' : Runtime,
       (∀ s, @set_iter rt' s = @set_iter rt s) →
       (@render_all rt self σ).1.2 = None →
       (@render_all rt' self σ).1.1 ≡ₚ (@render_all rt self σ).1.1).
Proof.
  rewrite !render_all_state.
  split; [done|]. split; [done|]. split; [done|].
  intros rt' Hiter. rewrite !render_all_run.
  destruct (dict_of σ self) as [d|]; [|done]. simpl. intros Hnone.
  rewrite (list_fmap_ext (@line rt' σ) (@line rt σ) _
             (λ _ item _, line_set_iter rt rt' σ item Hiter)).
  apply collect_Permutation; [|done].
  apply fmap_Permutation. by rewrite !dict_iter_perm.
Qed.

(** ** Lines that are rendered *)

Lemma to_string_text (p : Position) :
  is_Some (_chromosome p) → Position.to_string p = Ok (position_text p).
Proof.
  intros [c Hc]. unfold Position.to_string, position_text. by rewrite Hc.
Qed.

Lemma mapM_to_string_ok (ps : list Position) :
  (∀ p, p ∈ ps → is_Some (_chromosome p)) →
  mapM Position.to_string ps = Ok (position_text <$> ps).
Proof.
  induction ps as [|p ps IH]; intros Hall; [done|].
  rewrite mapM_result_cons, to_string_text, IH; [done| |].
  - intros q Hq. apply Hall, elem_of_cons. by right.
  - apply Hall, elem_of_cons. by left.
Qed.

Lemma cluster_string_ok {rt : Runtime} (σ : state) (r : ref) (c : Cluster) :
  heap σ !! r = Some c →
  (∀ p, p ∈ _positions c → is_Some (_chromosome p)) →
  cluster_string σ r = Ok (cluster_text (_positions c)).
Proof.
  intros Hr Hall. unfold cluster_string, cluster_text. rewrite Hr.
  rewrite mapM_to_string_ok; [done|].
  intros p Hp. apply Hall. by rewrite <- (set_iter_perm (_positions c)).
Qed.

Lemma line_ok {rt : Runtime} (σ : state) (k : string) (r : ref) (c : Cluster) :
  heap σ !! r = Some c →
  (∀ p, p ∈ _positions c → is_Some (_chromosome p)) →
  line σ (k, r) = Ok (line_text (k, positions_at σ r)).
Proof.
  intros Hr Hall. unfold line, line_text, positions_at. simpl.
  by rewrite (cluster_string_ok σ r c Hr Hall), Hr.
Qed.

Lemma collect_all_ok {A B} (f : A → result B) (g : A → B) (l : list A) :
  (∀ x, x ∈ l → f x = Ok (g x)) → collect (f <$> l) = (g <$> l, None).
Proof.
  induction l as [|x l IH]; intros Hall; [done|].
  rewrite !fmap_cons. simpl. rewrite (Hall x) by (apply elem_of_cons; by left).
  rewrite IH; [done|]. intros y Hy. apply Hall, elem_of_cons. by right.
Qed.

(** C10: a key whose cluster is empty has its line, the key followed by a
    tab: the generator has a value for it, and the line is among the
    lines yielded whenever no exception ends the iteration, as none does
    when every cluster of the table is there and every position has a
    chromosome: then there is one line for each key. *)
Theorem empty_cluster_rendered {rt : Runtime} (σ : state) (self : ref)
    (d : gmap string ref) (k : string) (r : ref) :
  dict_of σ self = Some d →
  d !! k = Some r →
  heap σ !! r = Some (mkCluster []) →
  (∃ g next, Clusters.to_strings self σ = (Ok g, σ)
     ∧ next ∈ g ∧ next σ = (Ok (k +:+ TAB), σ))
  ∧ ((render_all self σ).1.2 = None → (k +:+ TAB) ∈ (render_all self σ).1.1)
  ∧ ((∀ k' r', d !! k' = Some r' →
        ∃ c, heap σ !! r' = Some c ∧ ∀ p, p ∈ _positions c → is_Some (_chromosome p)) →
     (render_all self σ).1.2 = None
     ∧ (k +:+ TAB) ∈ (render_all self σ).1.1
     ∧ length (render_all self σ).1.1 = size d).
Proof.
  intros Ht Hk Hr.
  assert (Hl : line σ (k, r) = Ok (k +:+ TAB)).
  { unfold line, cluster_string. simpl. rewrite Hr. simpl.
    by rewrite (proj1 (Permutation_nil_r _) (set_iter_perm [])). }
  assert (Hin : (k, r) ∈ dict_iter d).
  { rewrite dict_iter_perm. by apply elem_of_map_to_list. }
  assert (Hyield : (render_all self σ).1.2 = None →
                   (k +:+ TAB) ∈ (render_all self σ).1.1).
  { rewrite render_all_run, Ht. simpl. intros Hnone.
    destruct (collect_elem_of (line σ) (dict_iter d) (k, r) _ Hin Hl) as [?|Hsome];
      [done|].
    rewrite Hnone in Hsome. by destruct Hsome. }
  split; [|split; [done|]].
  - exists (next_line <$> dict_iter d), (next_line (k, r)).
    split; [by apply to_strings_run|].
    split; [by apply list_elem_of_fmap_2|]. by rewrite next_line_run, Hl.
  - intros Hall.
    assert (Hnone : (render_all self σ).1.2 = None
                    ∧ length (render_all self σ).1.1 = size d).
    { rewrite render_all_run, Ht. simpl.
      rewrite (collect_all_ok (line σ)
                 (λ item, line_text (item.1, positions_at σ item.2))).
      - simpl. split; [done|].
        by rewrite length_fmap, dict_iter_perm, length_map_to_list.
      - intros [k' r'] Hkr. simpl.
        rewrite dict_iter_perm in Hkr. apply elem_of_map_to_list in Hkr.
        destruct (Hall k' r' Hkr) as (c & Hc & Hmapped). by apply (line_ok σ k' r' c). }
    destruct Hnone as [Hnone Hlen]. split; [done|]. split; [by apply Hyield|done].
Qed.

Lemma empty_cluster_rendered_witness :
  let σ0 := {| tables := [mkClusters {[ "CC.DD"%string := 0%nat ]}];
               heap := [mkCluster [mkPosition (Some "chr2"%string) 50]];
               files := ∅ |} in
  let σ := (Clusters.get_cluster 0%nat "AA.BB" σ0).2 in
  (render_all (rt := simple_runtime) 0%nat σ).1.2 = None
  ∧ ("AA.BB" +:+ TAB) ∈ (render_all (rt := simple_runtime) 0%nat σ).1.1
  ∧ length (render_all (rt := simple_runtime) 0%nat σ).1.1
    = size (<["AA.BB"%string := 1%nat]> ({[ "CC.DD"%string := 0%nat ]} : gmap string ref)).
Proof.
  intros σ0 σ.
  destruct (empty_cluster_rendered (rt := simple_runtime) σ 0%nat
           (<["AA.BB"%string := 1%nat]> {[ "CC.DD"%string := 0%nat ]}) "AA.BB" 1%nat)
    as (_ & _ & Hall).
  - reflexivity.
  - vm_compute. reflexivity.
  - reflexivity.
  - apply Hall. intros k' r'.
    rewrite lookup_insert. case_decide as Hk.
    + intros [= <-]. eexists. split; [reflexivity|]. simpl. by intros p ?%elem_of_nil.
    + intros [_ <-]%lookup_singleton_Some. eexists. split; [reflexivity|].
      simpl. intros p ->%list_elem_of_singleton. by eexists.
Defined.

(** C10, as it is stated, fails on a table that also holds a position
    with no chromosome: after [get_clusters] on one unmapped record and
    [get_cluster("D")], the key [D] has an empty cluster, and rendering
    the table yields no line, for [D] or any key: the first cluster
    rendered raises [TypeError]. *)
Lemma empty_cluster_not_rendered :
  (∃ d r, dict_of unmapped_then_empty 0%nat = Some d
          ∧ d !! "D"%string = Some r
          ∧ heap unmapped_then_empty !! r = Some (mkCluster []))
  ∧ (render_all (rt := simple_runtime) 0%nat unmapped_then_empty).1
    = ([], Some TypeError)
  ∧ ("D" +:+ TAB) ∉ (render_all (rt := simple_runtime) 0%nat unmapped_then_empty).1.1.
Proof.
  assert (Hr : (render_all (rt := simple_runtime) 0%nat unmapped_then_empty).1
               = ([], Some TypeError)) by by vm_compute.
  split; [|split; [done|]].
  - eexists _, 1%nat. split; [by vm_compute|]. split; by vm_compute.
  - rewrite Hr. simpl. apply not_elem_of_nil.
Defined.

(** ** Compiling the pattern *)

Lemma parse_barcode_groups (n : nat) (items : list item) :
  parse (str_repeat n "\[(\w+)\]") (items, None) = Ok (rev items ++ barcode_groups n).
Proof.
  revert items. induction n as [|n IH]; intros items.
  - simpl. by rewrite app_nil_r.
  - change (str_repeat (S n) "\[(\w+)\]")
      with ("\[(\w+)\]" +:+ str_repeat n "\[(\w+)\]").
    change (parse ("\[(\w+)\]" +:+ str_repeat n "\[(\w+)\]") (items, None))
      with (parse (str_repeat n "\[(\w+)\]")
              (Plain (One (Lit "]")) :: Group [Many1 WordChar]
               :: Plain (One (Lit "[")) :: items, None)).
    rewrite IH. simpl. by rewrite <- !app_assoc.
Qed.

Lemma parse_pattern (num_barcodes : Z) :
  parse ("::" +:+ str_mul num_barcodes "\[(\w+)\]") ([], None) = Ok (pattern num_barcodes).
Proof.
  unfold str_mul, pattern.
  change (parse ("::" +:+ ?s) ([], None))
    with (parse s ([Plain (One (Lit ":")); Plain (One (Lit ":"))], None)).
  by rewrite parse_barcode_groups.
Qed.

Lemma group_count_barcode_groups (n : nat) : group_count (barcode_groups n) = n.
Proof.
  unfold group_count. induction n as [|n IH]; [done|]. simpl. by rewrite IH.
Qed.

Lemma group_count_pattern (num_barcodes : Z) :
  group_count (pattern num_barcodes) = Z.to_nat num_barcodes.
Proof. apply group_count_barcode_groups. Qed.

(** Below the limit of 100 groups the pattern is compiled. *)
Lemma compile_pattern (num_barcodes : Z) :
  num_barcodes < 100 →
  re_compile ("::" +:+ str_mul num_barcodes "\[(\w+)\]") = Ok (pattern num_barcodes).
Proof.
  intros HN. unfold re_compile. rewrite parse_pattern. simpl.
  rewrite group_count_pattern.
  destruct (Nat.ltb_spec 100 (S (Z.to_nat num_barcodes))) as [Hlt|]; [lia|done].
Qed.

(** From 100 groups on it is refused. *)
Lemma compile_pattern_limit (num_barcodes : Z) :
  100 ≤ num_barcodes →
  re_compile ("::" +:+ str_mul num_barcodes "\[(\w+)\]") = Raise AssertionError.
Proof.
  intros HN. unfold re_compile. rewrite parse_pattern. simpl.
  rewrite group_count_pattern.
  destruct (Nat.ltb_spec 100 (S (Z.to_nat num_barcodes))) as [Hlt|]; [done|lia].
Qed.

Lemma extract_eq (N : Z) (name : string) :
  N < 100 → extract N name = barcodes (pattern N) name.
Proof. intros HN. unfold extract. by rewrite compile_pattern. Qed.

Lemma extract_limit (N : Z) (name : string) :
  100 ≤ N → extract N name = Raise AssertionError.
Proof. intros HN. unfold extract. by rewrite compile_pattern_limit. Qed.

(** A key comes from a compiled pattern only. *)
Lemma extract_Ok_limit (N : Z) (name k : string) :
  extract N name = Ok k → N < 100.
Proof.
  intros Hk. destruct (decide (N < 100)) as [|Hge]; [done|].
  rewrite extract_limit in Hk by lia. done.
Qed.

(** ** Matching a run of characters *)

Lemma all_ok_word (s : string) : all_ok WordChar s = all_word s.
Proof. induction s as [|c s IH]; simpl; [done|]. by rewrite IH. Qed.

Lemma is_barcode_iff (b : string) :
  is_barcode b = true ↔ b ≠ ""%string ∧ all_ok WordChar b = true.
Proof.
  rewrite all_ok_word. destruct b as [|c b]; simpl.
  - split; [done|]. by intros [? _].
  - split; [by intros ->|by intros [_ ->]].
Qed.

(** What a repetition has matched when the match succeeds: a nonempty run
    of characters of the class, after which the rest matches. *)
Lemma many1_sound {A} (a : atom) (s : string) (k : string → option A) (x : A) :
  many1 a s k = Some x →
  ∃ b rest, s = b +:+ rest ∧ b ≠ ""%string ∧ all_ok a b = true ∧ k rest = Some x.
Proof.
  induction s as [|c s IH]; simpl; [done|].
  destruct (atom_ok a c) eqn:Hc; [|done].
  destruct (many1 a s k) as [y|] eqn:Hs.
  - intros [= ->]. destruct (IH eq_refl) as (b & rest & -> & Hb & Hok & Hk).
    exists (String c b), rest. rewrite str_app_cons. simpl. by rewrite Hc, Hok.
  - intros Hk. exists (String c ""), s. simpl. by rewrite Hc.
Qed.

(** A repetition takes the whole run when what follows the run is not in
    the class and the continuation refuses to start inside the run. *)
Lemma many1_longest {A} (a : atom) (b rest : string) (k : string → option A) :
  b ≠ ""%string → all_ok a b = true →
  (∀ c rest', rest = String c rest' → atom_ok a c = false) →
  (∀ c s', atom_ok a c = true → k (String c s') = None) →
  many1 a (b +:+ rest) k = k rest.
Proof.
  intros Hb Hok Hrest Hk. induction b as [|c b IH]; [done|].
  rewrite str_app_cons. simpl in *. apply andb_true_iff in Hok as [Hc Hok].
  rewrite Hc. destruct b as [|c' b].
  - rewrite str_app_nil_l.
    assert (many1 a rest k = None) as ->; [|done].
    destruct rest as [|c' rest']; [done|]. simpl.
    by rewrite (Hrest c' rest').
  - rewrite IH by done. destruct (k rest) as [x|] eqn:Hx; [done|].
    rewrite str_app_cons. apply Hk. simpl in Hok.
    by apply andb_true_iff in Hok as [? _].
Qed.

(** ** Matching the barcode groups *)

Lemma barcode_group_complete {A} (r : regex) (b s' : string) (caps : list string)
    (k : string → list string → option A) :
  is_barcode b = true →
  match_items (barcode_group ++ r) ("[" +:+ b +:+ "]" +:+ s') caps k =
  match_items r s' (caps ++ [b]) k.
Proof.
  intros [Hb Hok]%is_barcode_iff.
  change (match_items (barcode_group ++ r) ("[" +:+ b +:+ "]" +:+ s') caps k)
    with (many1 WordChar (b +:+ String "]" s')
            (λ s2, match_items (Plain (One (Lit "]")) :: r) s2
                     (caps ++ [consumed (b +:+ String "]" s') s2]) k)).
  rewrite many1_longest; try done.
  - simpl. by rewrite consumed_app.
  - by intros c rest' [= <- <-].
  - intros c s2 Hc. simpl in *. destruct (Ascii.eqb_spec c "]") as [->|]; done.
Qed.

Lemma barcode_group_sound {A} (r : regex) (s : string) (caps : list string)
    (k : string → list string → option A) (x : A) :
  match_items (barcode_group ++ r) s caps k = Some x →
  ∃ b s', is_barcode b = true ∧ s = "[" +:+ b +:+ "]" +:+ s'
          ∧ match_items r s' (caps ++ [b]) k = Some x.
Proof.
  simpl. destruct s as [|c s1]; [done|].
  destruct (Ascii.eqb_spec c "[") as [->|]; [|done].
  intros (b & rest & -> & Hb & Hok & Hk)%many1_sound.
  destruct rest as [|c rest]; [done|].
  destruct (Ascii.eqb_spec c "]") as [->|]; [|done].
  rewrite consumed_app in Hk.
  exists b, rest. split; [by apply is_barcode_iff|]. done.
Qed.

Lemma barcode_groups_complete {A} (r : regex) (bs : list string) (s' : string)
    (caps : list string) (k : string → list string → option A) :
  forallb is_barcode bs = true →
  match_items (barcode_groups (length bs) ++ r) (bracketed bs +:+ s') caps k =
  match_items r s' (caps ++ bs) k.
Proof.
  revert caps. induction bs as [|b bs IH]; intros caps Hbs.
  - simpl. by rewrite app_nil_r.
  - simpl in Hbs. apply andb_true_iff in Hbs as [Hb Hbs].
    change (barcode_groups (length (b :: bs)) ++ r)
      with (barcode_group ++ (barcode_groups (length bs) ++ r)).
    change (bracketed (b :: bs)) with ("[" +:+ b +:+ "]" +:+ bracketed bs).
    rewrite !str_app_assoc, barcode_group_complete by done.
    rewrite IH by done. by rewrite <- app_assoc.
Qed.

Lemma barcode_groups_sound {A} (n : nat) (r : regex) (s : string)
    (caps : list string) (k : string → list string → option A) (x : A) :
  match_items (barcode_groups n ++ r) s caps k = Some x →
  ∃ bs s', length bs = n ∧ forallb is_barcode bs = true
           ∧ s = bracketed bs +:+ s'
           ∧ match_items r s' (caps ++ bs) k = Some x.
Proof.
  revert s caps. induction n as [|n IH]; intros s caps Hm.
  - exists [], s. by rewrite app_nil_r.
  - change (barcode_groups (S n) ++ r)
      with (barcode_group ++ (barcode_groups n ++ r)) in Hm.
    apply barcode_group_sound in Hm as (b & s1 & Hb & -> & Hm).
    apply IH in Hm as (bs & s' & Hlen & Hbs & -> & Hm).
    exists (b :: bs), s'. simpl. rewrite Hb, Hbs, Hlen.
    rewrite <- app_assoc in Hm. rewrite !str_app_assoc. done.
Qed.

(** ** Matching and searching the pattern *)

Lemma re_match_complete (N : Z) (s : string) (bs : list string) :
  barcodes_at N s "" bs → re_match (pattern N) s = Some (mkMatch bs).
Proof.
  intros (Hlen & Hbs & post & ->). unfold re_match, pattern. rewrite <- Hlen.
  rewrite str_app_nil_l.
  change (match_items (Plain (One (Lit ":")) :: Plain (One (Lit ":")) :: ?r)
            ("::" +:+ ?s) ?caps ?k)
    with (match_items r s caps k).
  rewrite <- (app_nil_r (barcode_groups (length bs))).
  by rewrite barcode_groups_complete.
Qed.

Lemma re_match_sound (N : Z) (s : string) (m : Match) :
  re_match (pattern N) s = Some m → barcodes_at N s "" (groups m).
Proof.
  unfold re_match, pattern. simpl.
  destruct s as [|c s]; [done|].
  destruct (Ascii.eqb_spec c ":") as [->|]; [|done].
  destruct s as [|c s]; [done|].
  destruct (Ascii.eqb_spec c ":") as [->|]; [|done].
  rewrite <- (app_nil_r (barcode_groups (Z.to_nat N))).
  intros (bs & post & Hlen & Hbs & -> & Hm)%barcode_groups_sound.
  simpl in Hm. injection Hm as <-. simpl.
  split; [done|]. split; [done|]. by exists post.
Qed.

Lemma re_search_eq (p : regex) (s : string) :
  re_search p s =
  match re_match p s with
  | Some m => Some m
  | None =>
      match s with
      | String _ s' => re_search p s'
      | EmptyString => None
      end
  end.
Proof. by destruct s. Qed.

(** A search returns the match at the first offset that has one. *)
Lemma re_search_first (p : regex) (name : string) (m : Match) :
  re_search p name = Some m →
  ∃ pre rest, name = pre +:+ rest ∧ re_match p rest = Some m
    ∧ ∀ pre' rest', name = pre' +:+ rest' →
        (String.length pre' < String.length pre)%nat → re_match p rest' = None.
Proof.
  induction name as [|c name IH]; rewrite re_search_eq.
  - destruct (re_match p "") as [m'|] eqn:Hm; [|done]. intros [= ->].
    exists ""%string, ""%string. split; [done|]. split; [done|].
    intros pre' rest' _ Hlt. simpl in Hlt. lia.
  - destruct (re_match p (String c name)) as [m'|] eqn:Hm.
    + intros [= ->]. exists ""%string, (String c name).
      split; [done|]. split; [done|].
      intros pre' rest' _ Hlt. simpl in Hlt. lia.
    + intros (pre & rest & -> & Hrest & Hfirst)%IH.
      exists (String c pre), rest. split; [done|]. split; [done|].
      intros pre' rest' Heq Hlt. destruct pre' as [|c' pre'].
      * rewrite str_app_nil_l in Heq. by subst.
      * rewrite str_app_cons in Heq. injection Heq as <- Heq.
        apply (Hfirst pre' rest' Heq). simpl in Hlt. lia.
Qed.


Lemma barcodes_at_suffix (N : Z) (pre rest : string) (bs : list string) :
  barcodes_at N (pre +:+ rest) pre bs ↔ barcodes_at N rest "" bs.
Proof.
  unfold barcodes_at. split; intros (Hlen & Hbs & post & Heq).
  - split; [done|]. split; [done|]. exists post.
    rewrite str_app_nil_l. by apply (inj (String.append pre)) in Heq.
  - split; [done|]. split; [done|]. exists post.
    rewrite str_app_nil_l in Heq. by rewrite Heq.
Qed.

Lemma barcodes_at_split (N : Z) (name pre : string) (bs : list string) :
  barcodes_at N name pre bs →
  ∃ rest, name = pre +:+ rest ∧ barcodes_at N rest "" bs.
Proof.
  intros Hat. pose proof Hat as (_ & _ & post & Heq).
  exists ("::" +:+ bracketed bs +:+ post). split; [done|].
  apply (barcodes_at_suffix N pre). by rewrite <- Heq.
Qed.

(** The match a search returns is the leftmost occurrence of the barcodes. *)
Lemma re_search_leftmost (N : Z) (name : string) (m : Match) :
  re_search (pattern N) name = Some m →
  ∃ pre, barcodes_at N name pre (groups m)
    ∧ ∀ pre' bs', barcodes_at N name pre' bs' →
        (String.length pre ≤ String.length pre')%nat.
Proof.
  intros (pre & rest & -> & Hm & Hfirst)%re_search_first.
  exists pre. split.
  - apply barcodes_at_suffix. by apply re_match_sound.
  - intros pre' bs' (rest' & Heq & Hat)%barcodes_at_split.
    apply re_match_complete in Hat.
    destruct (decide (String.length pre' < String.length pre)%nat) as [Hlt|]; [|lia].
    rewrite (Hfirst pre' rest' Heq Hlt) in Hat. done.
Qed.





(** ** The loop of [get_clusters] *)

Lemma get_clusters_run {rt : Runtime} (bamfile : list AlignedSegment) (N : Z) (σ : state) :
  N < 100 →
  get_clusters bamfile N σ =
  match for_each bamfile (process (length (tables σ)) (pattern N))
          {| tables := tables σ ++ [mkClusters ∅]; heap := heap σ; files := files σ |}
  with
  | (Ok _, σ') => (Ok (length (tables σ)), σ')
  | (Raise e, σ') => (Raise e, σ')
  end.
Proof.
  intros HN. unfold get_clusters. rewrite bind_run. simpl.
  rewrite bind_run. unfold lift at 1. rewrite compile_pattern, bind_run by done.
  change (for_each bamfile _) with
    (for_each bamfile (process (length (tables σ)) (pattern N))).
  by destruct (for_each bamfile _ _) as [[[]|e] σ'].
Qed.

(** From 100 barcodes on, [re.compile] raises before a record is read:
    the new table is there, and it is empty. *)
Lemma get_clusters_limit {rt : Runtime} (bamfile : list AlignedSegment) (N : Z) (σ : state) :
  100 ≤ N →
  get_clusters bamfile N σ =
  (Raise AssertionError,
   {| tables := tables σ ++ [mkClusters ∅]; heap := heap σ; files := files σ |}).
Proof.
  intros HN. unfold get_clusters. rewrite bind_run. simpl.
  rewrite bind_run. unfold lift at 1. by rewrite compile_pattern_limit.
Qed.

Lemma get_clusters_Ok_limit {rt : Runtime} (bamfile : list AlignedSegment) (N : Z)
    (σ σ' : state) (clusters : ref) :
  get_clusters bamfile N σ = (Ok clusters, σ') → N < 100.
Proof.
  intros Hget. destruct (decide (N < 100)) as [|Hge]; [done|].
  rewrite get_clusters_limit in Hget by lia. done.
Qed.

Lemma process_no_match {rt : Runtime} (t : ref) (p : regex) (read : AlignedSegment)
    (σ : state) :
  re_search p (query_name read) = None →
  process t p read σ = (Raise AttributeError, σ).
Proof.
  intros Hnone. unfold process. rewrite bind_run. unfold lift, barcodes.
  by rewrite Hnone.
Qed.

Lemma process_match {rt : Runtime} (t : ref) (p : regex) (read : AlignedSegment)
    (σ : state) (m : Match) :
  re_search p (query_name read) = Some m →
  process t p read σ =
  Clusters.add_position t (str_join "." (groups m))
    (Position.__init__ (reference_name read) (reference_start read)) σ.
Proof.
  intros Hm. unfold process. rewrite bind_run. unfold lift, barcodes.
  by rewrite Hm.
Qed.

(** ** Adding a position to the table *)

Lemma Clusters_add_position_present {rt : Runtime} (σ : state) (t : ref)
    (d : gmap string ref) (k : string) (r : ref) (c : Cluster) (p : Position) :
  dict_of σ t = Some d → d !! k = Some r → heap σ !! r = Some c →
  Clusters.add_position t k p σ =
  (Ok tt,
   {| tables := tables σ;
      heap := <[r := mkCluster (set_add (_positions c) p)]> (heap σ);
      files := files σ |}).
Proof.
  intros Ht Hk Hr. unfold Clusters.add_position.
  rewrite bind_run, (get_cluster_present σ t d k r) by done.
  by apply Cluster_add_position_run.
Qed.

Lemma Clusters_add_position_absent {rt : Runtime} (σ : state) (t : ref)
    (d : gmap string ref) (k : string) (p : Position) :
  dict_of σ t = Some d → d !! k = None →
  Clusters.add_position t k p σ =
  (Ok tt,
   {| tables := <[t := mkClusters (<[k := length (heap σ)]> d)]> (tables σ);
      heap := heap σ ++ [mkCluster [p]];
      files := files σ |}).
Proof.
  intros Ht Hk. unfold Clusters.add_position.
  rewrite bind_run, (get_cluster_absent σ t d) by done.
  rewrite (Cluster_add_position_run _ _ (mkCluster [])); simpl.
  - by rewrite insert_app_r_alt, Nat.sub_diag by lia.
  - by rewrite lookup_app_r, Nat.sub_diag by lia.
Qed.







(** ** Writing the table *)

Lemma for_each_yield_write {rt : Runtime} (outfile : string) (items : list (string * ref))
    (ts : list Clusters) (h : list Cluster) (fs : gmap string string) (text : string) :
  for_each_yield (next_line <$> items)
    (λ cluster_string, file_write outfile cluster_string ;; file_write outfile NL)
    {| tables := ts; heap := h; files := <[outfile := text]> fs |} =
  (match (collect (line {| tables := ts; heap := h; files := fs |} <$> items)).2 with
   | None => Ok tt
   | Some e => Raise e
   end,
   {| tables := ts; heap := h;
      files := <[outfile :=
                   text +:+ file_text
                     (collect (line {| tables := ts; heap := h; files := fs |}
                               <$> items)).1]> fs |}).
Proof.
  revert text. induction items as [|item items IH]; intros text.
  - simpl. by rewrite str_app_nil_r.
  - rewrite !fmap_cons. simpl. rewrite bind_run, next_line_run.
    rewrite (line_heap _ {| tables := ts; heap := h; files := fs |}) by done.
    destruct (line _ item) as [l|e]; simpl.
    2:{ by rewrite str_app_nil_r. }
    rewrite !bind_run. unfold file_write at 1 2. simpl.
    rewrite !alter_insert_eq, IH.
    destruct (collect _) as [ls o]. simpl.
    by rewrite !str_app_assoc.
Qed.

Lemma write_clusters_to_file_run {rt : Runtime} (clusters : ref) (outfile : string)
    (σ : state) (d : gmap string ref) :
  dict_of σ clusters = Some d →
  write_clusters_to_file clusters outfile σ =
  (match (collect (line σ <$> dict_iter d)).2 with
   | None => Ok tt
   | Some e => Raise e
   end,
   {| tables := tables σ; heap := heap σ;
      files := <[outfile := file_text (collect (line σ <$> dict_iter d)).1]> (files σ) |}).
Proof.
  intros Ht. unfold write_clusters_to_file. rewrite bind_run. unfold file_open_w at 1.
  rewrite bind_run, (to_strings_run _ clusters d) by done.
  rewrite for_each_yield_write, str_app_nil_l.
  by rewrite state_eta.
Qed.

(** ** Positions with no chromosome *)





(** ** What the loop allocates *)

(** What [add_position] of [Clusters] does in a state, case by case. *)
Lemma Clusters_add_position_dangling {rt : Runtime} (σ : state) (t : ref) (k : string)
    (p : Position) :
  dict_of σ t = None → Clusters.add_position t k p σ = (Raise SystemError, σ).
Proof.
  intros Ht. unfold Clusters.add_position. by rewrite bind_run, get_cluster_dangling.
Qed.

Lemma Clusters_add_position_lost {rt : Runtime} (σ : state) (t : ref)
    (d : gmap string ref) (k : string) (r : ref) (p : Position) :
  dict_of σ t = Some d → d !! k = Some r → heap σ !! r = None →
  Clusters.add_position t k p σ = (Raise SystemError, σ).
Proof.
  intros Ht Hk Hr. unfold Clusters.add_position.
  rewrite bind_run, (get_cluster_present σ t d k r) by done.
  by apply Cluster_add_position_dangling.
Qed.

Lemma add_position_allocates {rt : Runtime} (σ0 σ1 : state) (k : string) (p : Position) :
  (∃ T new, tables σ1 = tables σ0 ++ [T] ∧ heap σ1 = heap σ0 ++ new
            ∧ files σ1 = files σ0
            ∧ ∀ k r, _clusters T !! k = Some r → (length (heap σ0) ≤ r)%nat) →
  ∃ T new,
    tables (Clusters.add_position (length (tables σ0)) k p σ1).2 = tables σ0 ++ [T]
    ∧ heap (Clusters.add_position (length (tables σ0)) k p σ1).2 = heap σ0 ++ new
    ∧ files (Clusters.add_position (length (tables σ0)) k p σ1).2 = files σ0
    ∧ ∀ k r, _clusters T !! k = Some r → (length (heap σ0) ≤ r)%nat.
Proof.
  intros (T & new & Ht & Hh & Hf & Hge).
  assert (Hd : dict_of σ1 (length (tables σ0)) = Some (_clusters T)).
  { unfold dict_of. by rewrite Ht, lookup_app_r, Nat.sub_diag by lia. }
  destruct (_clusters T !! k) as [r|] eqn:Hk.
  - destruct (heap σ1 !! r) as [c|] eqn:Hr.
    + rewrite (Clusters_add_position_present σ1 _ _ k r c p Hd Hk Hr). simpl.
      exists T, (<[(r - length (heap σ0))%nat := mkCluster (set_add (_positions c) p)]> new).
      split; [done|]. split; [|done].
      rewrite Hh. apply insert_app_r_alt. by eapply Hge.
    + rewrite (Clusters_add_position_lost σ1 _ _ k r p Hd Hk Hr). simpl.
      by exists T, new.
  - rewrite (Clusters_add_position_absent σ1 _ _ k p Hd Hk). simpl.
    exists (mkClusters (<[k := length (heap σ1)]> (_clusters T))), (new ++ [mkCluster [p]]).
    split; [|split; [|split]].
    + rewrite Ht, insert_app_r_alt, Nat.sub_diag by lia. done.
    + by rewrite Hh, <- (assoc_L (++)).
    + done.
    + simpl. intros k' r. rewrite lookup_insert. case_decide.
      * intros [= <-]. rewrite Hh, length_app. lia.
      * apply Hge.
Qed.

Lemma for_each_process_allocates {rt : Runtime} (σ0 : state) (p : regex)
    (bamfile : list AlignedSegment) (σ1 : state) :
  (∃ T new, tables σ1 = tables σ0 ++ [T] ∧ heap σ1 = heap σ0 ++ new
            ∧ files σ1 = files σ0
            ∧ ∀ k r, _clusters T !! k = Some r → (length (heap σ0) ≤ r)%nat) →
  ∃ T new,
    tables (for_each bamfile (process (length (tables σ0)) p) σ1).2 = tables σ0 ++ [T]
    ∧ heap (for_each bamfile (process (length (tables σ0)) p) σ1).2 = heap σ0 ++ new
    ∧ files (for_each bamfile (process (length (tables σ0)) p) σ1).2 = files σ0.
Proof.
  revert σ1. induction bamfile as [|read bamfile IH]; intros σ1 Hinv.
  - destruct Hinv as (T & new & ? & ? & ? & _). by exists T, new.
  - rewrite for_each_cons.
    destruct (re_search p (query_name read)) as [m|] eqn:Hm.
    + rewrite (process_match _ p read σ1 m Hm).
      pose proof (add_position_allocates σ0 σ1 (str_join "." (groups m))
        (Position.__init__ (reference_name read) (reference_start read)) Hinv) as Hstep.
      destruct (Clusters.add_position _ _ _ σ1) as [[[]|e] σ2]; simpl in Hstep.
      * by apply IH.
      * destruct Hstep as (T & new & ? & ? & ? & _). by exists T, new.
    + rewrite (process_no_match _ p read σ1 Hm). simpl.
      destruct Hinv as (T & new & ? & ? & ? & _). by exists T, new.
Qed.





(** ** The end-to-end scenario *)

Lemma line_singleton {rt : Runtime} (σ : state) (k : string) (r : ref) (p : Position)
    (chromosome : string) :
  heap σ !! r = Some (mkCluster [p]) →
  _chromosome p = Some chromosome →
  line σ (k, r) = Ok (k +:+ TAB +:+ chromosome +:+ ":" +:+ str (_coordinate p)).
Proof.
  intros Hr Hc. unfold line, cluster_string. simpl. rewrite Hr. simpl.
  rewrite (proj1 (Permutation_singleton_r _ _) (set_iter_perm [p])).
  rewrite mapM_result_cons. unfold Position.to_string. by rewrite Hc.
Qed.

Lemma get_clusters_scenario {rt : Runtime} :
  get_clusters scenario 2 initial =
  (Ok 0%nat,
   {| tables := [mkClusters (<["CC.DD"%string := 1%nat]> (<["AA.BB"%string := 0%nat]> ∅))];
      heap := [mkCluster [mkPosition (Some "chr1"%string) 100];
               mkCluster [mkPosition (Some "chr2"%string) 50]];
      files := ∅ |}).
Proof.
  rewrite get_clusters_run by lia. unfold scenario.
  change (length (tables initial)) with 0%nat.
  rewrite for_each_cons.
  rewrite (process_match _ _ _ _ (mkMatch ["AA"; "BB"]%string)) by by vm_compute.
  change (str_join "." _) with "AA.BB"%string.
  rewrite (Clusters_add_position_absent _ 0%nat ∅) by done.
  change (for_each ?l ?f _) with
    (for_each l f
       {| tables := [mkClusters (<["AA.BB"%string := 0%nat]> ∅)];
          heap := [mkCluster [mkPosition (Some "chr1"%string) 100]];
          files := ∅ |}).
  rewrite for_each_cons.
  rewrite (process_match _ _ _ _ (mkMatch ["AA"; "BB"]%string)) by by vm_compute.
  change (str_join "." _) with "AA.BB"%string.
  rewrite (Clusters_add_position_present _ 0%nat (<["AA.BB"%string := 0%nat]> ∅)
             "AA.BB" 0%nat (mkCluster [mkPosition (Some "chr1"%string) 100]));
    [|done|apply lookup_insert_eq|done].
  rewrite set_add_elem by (apply list_elem_of_singleton; done).
  change (for_each ?l ?f _) with
    (for_each l f
       {| tables := [mkClusters (<["AA.BB"%string := 0%nat]> ∅)];
          heap := [mkCluster [mkPosition (Some "chr1"%string) 100]];
          files := ∅ |}).
  rewrite for_each_cons.
  rewrite (process_match _ _ _ _ (mkMatch ["CC"; "DD"]%string)) by by vm_compute.
  change (str_join "." _) with "CC.DD"%string.
  rewrite (Clusters_add_position_absent _ 0%nat (<["AA.BB"%string := 0%nat]> ∅));
    [done|done|].
  by rewrite lookup_insert_ne, lookup_empty.
Qed.

(** C1: with [N = 2], the three records of the scenario give a file of
    exactly two lines, in one order or the other: [AA.BB] with the single
    position [chr1:100], and [CC.DD] with the single position [chr2:50]. *)
Theorem scenario_output {rt : Runtime} (outfile : string) :
  ∃ σ text,
    run scenario 2 outfile initial = (Ok tt, σ)
    ∧ files σ !! outfile = Some text
    ∧ (text = file_text ["AA.BB" +:+ TAB +:+ "chr1:100"; "CC.DD" +:+ TAB +:+ "chr2:50"]
       ∨ text = file_text ["CC.DD" +:+ TAB +:+ "chr2:50"; "AA.BB" +:+ TAB +:+ "chr1:100"]).
Proof.
  unfold run. rewrite bind_run, get_clusters_scenario.
  set (d := <["CC.DD"%string := 1%nat]> (<["AA.BB"%string := 0%nat]> ∅)).
  set (σ := {| tables := _; heap := _; files := ∅ |}).
  rewrite (write_clusters_to_file_run 0%nat outfile σ d) by done.
  assert (Ha : line σ ("AA.BB"%string, 0%nat) = Ok ("AA.BB" +:+ TAB +:+ "chr1:100")).
  { by rewrite (line_singleton σ _ _ (mkPosition (Some "chr1"%string) 100) "chr1"). }
  assert (Hc : line σ ("CC.DD"%string, 1%nat) = Ok ("CC.DD" +:+ TAB +:+ "chr2:50")).
  { by rewrite (line_singleton σ _ _ (mkPosition (Some "chr2"%string) 50) "chr2"). }
  assert (Hitems : [("CC.DD"%string, 1%nat); ("AA.BB"%string, 0%nat)] ≡ₚ dict_iter d).
  { rewrite dict_iter_perm. unfold d.
    rewrite map_to_list_insert by by rewrite lookup_insert_ne, lookup_empty.
    by rewrite insert_empty, map_to_list_singleton. }
  apply Permutation_length_2_inv in Hitems as [->| ->]; simpl;
    rewrite Ha, Hc; simpl; eexists _, _; (split; [done|]); simpl;
    rewrite lookup_insert_eq; (split; [done|]); [by right|by left].
Qed.

(** ** Examples *)

Example to_string_chrX :
  Position.to_string (Position.__init__ (Some "chrX"%string) 1000) = Ok "chrX:1000"%string.
Proof. reflexivity. Qed.

Example str_minus_one : str (-1) = "-1"%string.
Proof. reflexivity. Qed.

Example compile_one_group :
  re_compile "::\[(\w+)\]" =
  Ok [Plain (One (Lit ":")); Plain (One (Lit ":")); Plain (One (Lit "["));
      Group [Many1 WordChar]; Plain (One (Lit "]"))].
Proof. reflexivity. Qed.

(** The pattern of 99 barcodes is compiled, the pattern of 100 is not. *)
Example compile_99_groups :
  re_compile ("::" +:+ str_mul 99 "\[(\w+)\]") = Ok (pattern 99).
Proof. by vm_compute. Qed.

Example compile_100_groups :
  re_compile ("::" +:+ str_mul 100 "\[(\w+)\]") = Raise AssertionError.
Proof. by vm_compute. Qed.

(** With 100 barcodes the run stops before the file is opened, also on
    an empty stream. *)
Example run_100_barcodes :
  run (rt := simple_runtime) [] 100 "out" initial
  = (Raise AssertionError, {| tables := [mkClusters ∅]; heap := []; files := ∅ |}).
Proof. by vm_compute. Qed.

(** What follows the barcodes is free, also when it is one more group. *)
Example extract_one_more_group : extract 2 "r::[A][B][C]" = Ok "A.B"%string.
Proof. reflexivity. Qed.

(** The first place where the pattern is found is taken. *)
Example extract_first : extract 2 "r1::[AA][BB]::[CC][DD]" = Ok "AA.BB"%string.
Proof. reflexivity. Qed.

Example extract_underscore : extract 1 "x::[a_1]y" = Ok "a_1"%string.
Proof. reflexivity. Qed.

Example extract_empty_barcode : extract 1 "x::[]" = Raise AttributeError.
Proof. reflexivity. Qed.

(** A cluster of two positions, in insertion order. *)
Example two_positions_rendered :
  (c ← Cluster.__init__;
   Cluster.add_position (rt := simple_runtime) c (Position.__init__ (Some "chr1"%string) 100) ;;
   Cluster.add_position (rt := simple_runtime) c (Position.__init__ (Some "chr2"%string) 200) ;;
   Cluster.add_position (rt := simple_runtime) c (Position.__init__ (Some "chr1"%string) 100) ;;
   Cluster.to_string (rt := simple_runtime) c) initial
  = (Ok ("chr1:100" +:+ TAB +:+ "chr2:200"),
     {| tables := [];
        heap := [mkCluster [mkPosition (Some "chr1"%string) 100;
                            mkPosition (Some "chr2"%string) 200]];
        files := ∅ |}).
Proof. reflexivity. Qed.

(** The scenario with an unmapped record in front: the table is built and
    the file is opened, then the rendering raises. *)
Example unmapped_first :
  (run (rt := simple_runtime)
     ({| reference_name := None; reference_start := -1;
         query_name := "r0::[AA][BB]" |} :: scenario) 2 "out" initial).1
  = Raise TypeError.
Proof. by vm_compute. Qed.

(** The file of the scenario, for the runtime above. *)
Example scenario_file :
  files (run (rt := simple_runtime) scenario 2 "out" initial).2 !! "out"%string
  = Some (file_text ["CC.DD" +:+ TAB +:+ "chr2:50"; "AA.BB" +:+ TAB +:+ "chr1:100"]).
Proof. by vm_compute. Qed.

(** * Further properties *)

(** ** Texts that can be read back *)

Lemma str_mem_app (c : ascii) (s t : string) :
  str_mem c (s +:+ t) = str_mem c s || str_mem c t.
Proof.
  induction s as [|c' s IH]; [done|].
  rewrite str_app_cons. simpl. by rewrite IH, orb_assoc.
Qed.

(** A text is cut in one way only at its last occurrence of [c]. *)
Lemma str_split_last (c : ascii) (a b x y : string) :
  str_mem c x = false → str_mem c y = false →
  a +:+ String c x = b +:+ String c y → a = b ∧ x = y.
Proof.
  intros Hx Hy. revert b. induction a as [|c1 a IH]; intros [|c2 b] Heq.
  - rewrite !str_app_nil_l in Heq. by injection Heq as ->.
  - rewrite str_app_nil_l, str_app_cons in Heq. injection Heq as <- ->.
    rewrite str_mem_app in Hx. simpl in Hx. rewrite Ascii.eqb_refl in Hx.
    by rewrite orb_true_r in Hx.
  - rewrite str_app_nil_l, str_app_cons in Heq. injection Heq as -> <-.
    rewrite str_mem_app in Hy. simpl in Hy. rewrite Ascii.eqb_refl in Hy.
    by rewrite orb_true_r in Hy.
  - rewrite !str_app_cons in Heq. injection Heq as -> Heq.
    destruct (IH b Heq) as [-> ->]. done.
Qed.

Lemma string_of_uint_no_colon (d : Decimal.uint) :
  str_mem ":" (NilEmpty.string_of_uint d) = false.
Proof. induction d; simpl; done. Qed.

Lemma str_no_colon (i : Z) : str_mem ":" (str i) = false.
Proof.
  unfold str, NilZero.string_of_int, NilZero.string_of_uint.
  destruct (Z.to_int i) as [d|d]; destruct d; simpl;
    try done; apply string_of_uint_no_colon.
Qed.

Lemma to_int_not_nil (i : Z) :
  Z.to_int i ≠ Decimal.Pos Decimal.Nil ∧ Z.to_int i ≠ Decimal.Neg Decimal.Nil.
Proof.
  destruct i as [|p|p]; simpl; split; try done; intros [= Hp];
    by apply DecimalPos.Unsigned.to_uint_nonnil in Hp.
Qed.

Lemma str_inj (i j : Z) : str i = str j → i = j.
Proof.
  unfold str. intros Heq. apply DecimalZ.to_int_inj.
  destruct (to_int_not_nil i) as [Hi1 Hi2], (to_int_not_nil j) as [Hj1 Hj2].
  pose proof (NilZero.isi _ Hi1 Hi2) as Hi.
  pose proof (NilZero.isi _ Hj1 Hj2) as Hj.
  rewrite Heq in Hi. congruence.
Qed.

(** X1: [to_string] gives two positions the same text only when they are
    the same position: a field of an output line names one position. *)
Theorem to_string_inj (p q : Position) (s : string) :
  Position.to_string p = Ok s → Position.to_string q = Ok s → p = q.
Proof.
  unfold Position.to_string.
  destruct p as [[cp|] ip], q as [[cq|] iq]; simpl; try done.
  intros [= <-] [= Heq].
  apply str_split_last in Heq as [-> Hi]; try apply str_no_colon.
  by rewrite (str_inj _ _ Hi).
Qed.

Lemma to_string_inj_witness :
  Position.__init__ (Some "chr1"%string) 100 = Position.__init__ (Some "chr1"%string) 100.
Proof.
  apply (to_string_inj _ _ "chr1:100"); reflexivity.
Defined.

Lemma position_text_inj (p q : Position) :
  is_Some (_chromosome p) → is_Some (_chromosome q) →
  position_text p = position_text q → p = q.
Proof.
  destruct p as [cp ip], q as [cq iq]. intros [c Hc] [c' Hc']. simpl in *. subst.
  unfold position_text. simpl. intros Heq.
  apply str_split_last in Heq as [-> Hi]; try apply str_no_colon.
  by rewrite (str_inj _ _ Hi).
Qed.

(** ** Keys that can be read back *)

Lemma is_word_not_period (c : ascii) : is_word c = true → c ≠ "."%char.
Proof. by intros Hc ->. Qed.

Lemma str_join_cons (b : string) (bs : list string) :
  str_join "." (b :: bs) = b +:+ join_tail bs.
Proof.
  destruct bs as [|b' bs]; simpl.
  - by rewrite str_app_nil_r.
  - done.
Qed.

Lemma word_prefix_inj (b b' rest rest' : string) :
  all_word b = true → all_word b' = true →
  (rest = ""%string ∨ ∃ r, rest = String "." r) →
  (rest' = ""%string ∨ ∃ r, rest' = String "." r) →
  b +:+ rest = b' +:+ rest' → b = b' ∧ rest = rest'.
Proof.
  revert b'. induction b as [|c b IH]; intros [|c' b'] Hb Hb' Hr Hr' Heq.
  - by rewrite !str_app_nil_l in Heq.
  - rewrite str_app_nil_l, str_app_cons in Heq. simpl in Hb'.
    apply andb_true_iff in Hb' as [Hc' _].
    destruct Hr as [->|[r ->]]; [done|]. injection Heq as <- _. done.
  - rewrite str_app_nil_l, str_app_cons in Heq. simpl in Hb.
    apply andb_true_iff in Hb as [Hc _].
    destruct Hr' as [->|[r ->]]; [done|]. injection Heq as -> _. done.
  - rewrite !str_app_cons in Heq. injection Heq as -> Heq. simpl in Hb, Hb'.
    apply andb_true_iff in Hb as [_ Hb]. apply andb_true_iff in Hb' as [_ Hb'].
    destruct (IH b' Hb Hb' Hr Hr' Heq) as [-> ->]. done.
Qed.

Lemma is_barcode_all_word (b : string) : is_barcode b = true → all_word b = true.
Proof. by destruct b. Qed.

Lemma join_tail_shape (bs : list string) :
  join_tail bs = ""%string ∨ ∃ r, join_tail bs = String "." r.
Proof. destruct bs; [by left|right]. by eexists. Qed.

Lemma str_join_inj (bs bs' : list string) :
  forallb is_barcode bs = true → forallb is_barcode bs' = true →
  str_join "." bs = str_join "." bs' → bs = bs'.
Proof.
  revert bs'. induction bs as [|b bs IH]; intros [|b' bs'] Hbs Hbs' Heq.
  - done.
  - exfalso. rewrite str_join_cons in Heq. simpl in Hbs'.
    apply andb_true_iff in Hbs' as [Hb' _]. by destruct b'.
  - exfalso. rewrite str_join_cons in Heq. simpl in Hbs.
    apply andb_true_iff in Hbs as [Hb _]. by destruct b.
  - rewrite !str_join_cons in Heq. simpl in Hbs, Hbs'.
    apply andb_true_iff in Hbs as [Hb Hbs].
    apply andb_true_iff in Hbs' as [Hb' Hbs'].
    apply word_prefix_inj in Heq as [-> Htail];
      [|by apply is_barcode_all_word..|apply join_tail_shape|apply join_tail_shape].
    f_equal. apply IH; [done..|].
    destruct bs as [|b1 bs], bs' as [|b1' bs']; simpl in Htail; try done.
    by injection Htail.
Qed.

(** X2: the key is a faithful encoding of the barcodes: two read names
    get the same key only when the same barcodes were captured in them. *)
Theorem key_inj (N : Z) (name name' : string) (m m' : Match) :
  re_search (pattern N) name = Some m →
  re_search (pattern N) name' = Some m' →
  barcodes (pattern N) name = barcodes (pattern N) name' →
  groups m = groups m'.
Proof.
  intros Hm Hm'. unfold barcodes. rewrite Hm, Hm'. intros [= Heq].
  apply re_search_leftmost in Hm as (pre & (_ & Hbs & _) & _).
  apply re_search_leftmost in Hm' as (pre' & (_ & Hbs' & _) & _).
  by apply str_join_inj.
Qed.

Lemma key_inj_witness :
  groups (mkMatch ["AA"; "BB"]%string) = groups (mkMatch ["AA"; "BB"]%string).
Proof.
  apply (key_inj 2 "r1::[AA][BB]" "r2::[AA][BB] x"); reflexivity.
Defined.



(** ** What the calls change in the store *)

Lemma positions_of_Some (σ : state) (t : ref) (k : string) (d : gmap string ref)
    (r : ref) (c : Cluster) :
  dict_of σ t = Some d → d !! k = Some r → heap σ !! r = Some c →
  positions_of σ t k = Some (_positions c).
Proof.
  intros Ht Hk Hr. unfold positions_of.
  by rewrite Ht, Hk, Hr.
Qed.

Lemma positions_of_None (σ : state) (t : ref) (k : string) (d : gmap string ref) :
  dict_of σ t = Some d → d !! k = None → positions_of σ t k = None.
Proof.
  intros Ht Hk. unfold positions_of. by rewrite Ht, Hk.
Qed.

Lemma set_add_set_add {rt : Runtime} (s : list Position) (p : Position) :
  set_add (set_add s p) p = set_add s p.
Proof. apply set_add_elem, elem_of_set_add. by right. Qed.

(** X4: adding the same position under the same key a second time
    changes nothing: a record that repeats another leaves no trace. *)
Theorem add_position_twice {rt : Runtime} (σ : state) (self : ref) (k : string)
    (p : Position) :
  (Clusters.add_position self k p ;; Clusters.add_position self k p) σ
  = Clusters.add_position self k p σ.
Proof.
  rewrite bind_run. destruct (dict_of σ self) as [d|] eqn:Ht.
  2:{ by rewrite Clusters_add_position_dangling. }
  destruct (d !! k) as [r|] eqn:Hk.
  - destruct (heap σ !! r) as [c|] eqn:Hr.
    2:{ by rewrite (Clusters_add_position_lost σ self d k r). }
    rewrite (Clusters_add_position_present σ self d k r c) by done.
    rewrite (Clusters_add_position_present _ self d k r
               (mkCluster (set_add (_positions c) p))); [|done..|].
    + simpl. by rewrite set_add_set_add, list_insert_insert_eq.
    + simpl. apply list_lookup_insert_eq. by eapply lookup_lt_Some.
  - rewrite (Clusters_add_position_absent σ self d k) by done.
    rewrite (Clusters_add_position_present _ self (<[k := length (heap σ)]> d) k
               (length (heap σ)) (mkCluster [p])).
    + simpl. rewrite set_add_elem by (apply list_elem_of_singleton; done).
      rewrite (list_insert_id (heap σ ++ [mkCluster [p]]) (length (heap σ))); [done|].
      by rewrite lookup_app_r, Nat.sub_diag by lia.
    + rewrite (dict_of_store σ self self d) by done. by rewrite decide_True.
    + apply lookup_insert_eq.
    + simpl. by rewrite lookup_app_r, Nat.sub_diag by lia.
Qed.

(** *** The clusters of a table stay apart *)

Lemma table_ok_heap_insert {rt : Runtime} (σ : state) (t r : ref) (c : Cluster)
    (p : Position) :
  table_ok σ t → heap σ !! r = Some c →
  table_ok {| tables := tables σ;
              heap := <[r := mkCluster (set_add (_positions c) p)]> (heap σ);
              files := files σ |} t.
Proof.
  intros (d & Ht & Hal & Hinj) Hr. exists d. split; [done|]. split; [|done].
  intros k r' Hk. simpl. destruct (Hal k r' Hk) as (c' & Hr' & Hnd).
  destruct (decide (r' = r)) as [->|Hne].
  - eexists. split; [apply list_lookup_insert_eq; by eapply lookup_lt_Some|].
    simpl. apply NoDup_set_add. congruence.
  - exists c'. by rewrite list_lookup_insert_ne.
Qed.

Lemma table_ok_Cluster_add_position {rt : Runtime} (σ : state) (t r : ref) (p : Position) :
  table_ok σ t → table_ok (Cluster.add_position r p σ).2 t.
Proof.
  intros Hok. destruct (heap σ !! r) as [c|] eqn:Hr.
  - rewrite (Cluster_add_position_run σ r c) by done. by apply table_ok_heap_insert.
  - by rewrite Cluster_add_position_dangling.
Qed.

Lemma table_ok_get_cluster (σ : state) (t t' : ref) (k' : string) :
  table_ok σ t → table_ok (Clusters.get_cluster t' k' σ).2 t.
Proof.
  intros (d & Ht & Hal & Hinj). destruct (dict_of σ t') as [d0|] eqn:Ht'.
  2:{ rewrite get_cluster_dangling by done. by exists d. }
  destruct (d0 !! k') as [r'|] eqn:Hk'.
  { rewrite (get_cluster_present σ t' d0 k' r') by done. by exists d. }
  rewrite (get_cluster_absent σ t' d0) by done. simpl.
  assert (Hold : ∀ k r, d !! k = Some r →
            ∃ c, (heap σ ++ [mkCluster []]) !! r = Some c ∧ NoDup (_positions c)).
  { intros k r Hk. destruct (Hal k r Hk) as (c & Hr & Hnd). exists c.
    split; [|done]. rewrite lookup_app_l; [done|]. by eapply lookup_lt_Some. }
  destruct (decide (t' = t)) as [->|Hne].
  - assert (d0 = d) as -> by congruence.
    exists (<[k' := length (heap σ)]> d).
    split. { rewrite (dict_of_store σ t t d) by done. by rewrite decide_True. }
    split.
    + intros k r. rewrite lookup_insert. case_decide.
      * intros [= <-]. exists (mkCluster []). simpl.
        split; [by rewrite lookup_app_r, Nat.sub_diag by lia|constructor].
      * apply Hold.
    + intros k1 k2 r. rewrite !lookup_insert.
      repeat case_decide; subst; try done.
      * intros [= <-] Hk2. destruct (Hal k2 _ Hk2) as (c & Hc & _).
        apply lookup_lt_Some in Hc. lia.
      * intros Hk1 [= <-]. destruct (Hal k1 _ Hk1) as (c & Hc & _).
        apply lookup_lt_Some in Hc. lia.
      * apply Hinj.
  - exists d. split; [|done].
    rewrite (dict_of_store σ t' t d0) by done. by rewrite decide_False.
Qed.

Lemma table_ok_add_position {rt : Runtime} (σ : state) (t t' : ref) (k' : string)
    (p : Position) :
  table_ok σ t → table_ok (Clusters.add_position t' k' p σ).2 t.
Proof.
  intros Hok. unfold Clusters.add_position. rewrite bind_run.
  pose proof (table_ok_get_cluster σ t t' k' Hok) as Hok1.
  destruct (Clusters.get_cluster t' k' σ) as [[c|e] σ1]; simpl in *; [|done].
  by apply table_ok_Cluster_add_position.
Qed.

Lemma table_ok_remove_cluster (σ : state) (t t' : ref) (k' : string) :
  table_ok σ t → table_ok (Clusters.remove_cluster t' k' σ).2 t.
Proof.
  intros (d & Ht & Hal & Hinj). unfold Clusters.remove_cluster.
  destruct (dict_of σ t') as [d0|] eqn:Ht'.
  2:{ unfold dict_delitem. rewrite bind_run, load_dict_dangling by done. by exists d. }
  rewrite (dict_delitem_run σ t' d0) by done.
  destruct (d0 !! k') as [r'|] eqn:Hk'; [|by exists d]. simpl.
  destruct (decide (t' = t)) as [->|Hne].
  - assert (d0 = d) as -> by congruence. exists (delete k' d).
    split. { rewrite (dict_of_store σ t t d) by done. by rewrite decide_True. }
    split.
    + intros k r Hk. apply lookup_delete_Some in Hk as [_ Hk]. by eapply Hal.
    + intros k1 k2 r Hk1 Hk2.
      apply lookup_delete_Some in Hk1 as [_ Hk1].
      apply lookup_delete_Some in Hk2 as [_ Hk2]. by eapply Hinj.
  - exists d. split; [|done].
    rewrite (dict_of_store σ t' t d0) by done. by rewrite decide_False.
Qed.

Lemma table_ok_new (σ : state) :
  table_ok (Clusters.__init__ σ).2 (length (tables σ)).
Proof.
  exists ∅. split.
  - apply dict_of_Some. simpl. by rewrite lookup_app_r, Nat.sub_diag by lia.
  - split; intros *; by rewrite lookup_empty.
Qed.

Lemma table_ok_exec {rt : Runtime} (c : call) (σ : state) (t : ref) :
  table_ok σ t → table_ok (exec c σ) t.
Proof.
  intros Hok. destruct c as [|t' k'|t' k' p|t'|t' k']; simpl.
  - destruct Hok as (d & Ht & Hal & Hinj). exists d. split; [|done].
    apply dict_of_Some. apply dict_of_Some in Ht. simpl.
    rewrite lookup_app_l; [done|]. by eapply lookup_lt_Some.
  - by apply table_ok_get_cluster.
  - by apply table_ok_add_position.
  - by rewrite render_all_state.
  - by apply table_ok_remove_cluster.
Qed.

(** X5: in every state reached through the methods of [Clusters], from
    the creation of a table on, the clusters of the table are allocated,
    none holds a position twice, and no two keys share a cluster. *)
Theorem table_ok_always {rt : Runtime} (σ : state) (cs : list call) :
  table_ok (exec_all cs (Clusters.__init__ σ).2) (length (tables σ)).
Proof.
  unfold exec_all. generalize (table_ok_new σ).
  generalize (Clusters.__init__ σ).2. generalize (length (tables σ)).
  induction cs as [|c cs IH]; intros t σ1 Hok; simpl; [done|].
  by apply IH, table_ok_exec.
Qed.

Lemma Clusters_add_position_positions {rt : Runtime} (σ : state) (self : ref)
    (k : string) (p : Position) :
  table_ok σ self →
  ∃ σ', Clusters.add_position self k p σ = (Ok tt, σ')
    ∧ table_ok σ' self
    ∧ ∀ k', positions_of σ' self k' =
            if decide (k' = k)
            then Some (set_add (default [] (positions_of σ self k)) p)
            else positions_of σ self k'.
Proof.
  intros Hok. pose proof (table_ok_add_position σ self self k p Hok) as Hok'.
  destruct Hok as (d & Ht & Hal & Hinj). destruct (d !! k) as [r|] eqn:Hk.
  - destruct (Hal k r Hk) as (c & Hr & Hnd).
    rewrite (Clusters_add_position_present σ self d k r c) in * by done.
    eexists. split; [done|]. split; [done|].
    intros k'. destruct (decide (k' = k)) as [->|Hne].
    + rewrite (positions_of_Some σ self k d r c) by done. simpl.
      apply (positions_of_Some _ self k d r (mkCluster _)); [done..|]. simpl.
      apply list_lookup_insert_eq. by eapply lookup_lt_Some.
    + unfold positions_of. rewrite dict_of_heap, Ht. simpl.
      destruct (d !! k') as [r'|] eqn:Hk'; [|done]. simpl.
      rewrite list_lookup_insert_ne; [done|]. intros ->. apply Hne. by eapply Hinj.
  - rewrite (Clusters_add_position_absent σ self d k) in * by done.
    eexists. split; [done|]. split; [done|].
    assert (Ht' : ∀ h fs,
      dict_of {| tables := <[self := mkClusters (<[k := length (heap σ)]> d)]> (tables σ);
                 heap := h; files := fs |} self
      = Some (<[k := length (heap σ)]> d)).
    { intros h fs. rewrite (dict_of_store σ self self d) by done. by rewrite decide_True. }
    intros k'. destruct (decide (k' = k)) as [->|Hne].
    + rewrite (positions_of_None σ self k d) by done. simpl.
      apply (positions_of_Some _ self k (<[k := length (heap σ)]> d)
               (length (heap σ)) (mkCluster [p]));
        [apply Ht'|apply lookup_insert_eq|].
      simpl. by rewrite lookup_app_r, Nat.sub_diag by lia.
    + unfold positions_of. rewrite Ht', Ht. simpl.
      rewrite lookup_insert_ne by done.
      destruct (d !! k') as [r'|] eqn:Hk'; [|done]. simpl.
      destruct (Hal k' r' Hk') as (c' & Hr' & _).
      rewrite lookup_app_l; [done|]. by eapply lookup_lt_Some.
Qed.

(** X6: on a sound table, [add_position] adds the position to the cluster
    of its key, creating it if need be, and the positions under every
    other key are what they were. *)
Theorem add_position_frame {rt : Runtime} (σ : state) (self : ref) (k : string)
    (p : Position) :
  table_ok σ self →
  ∃ σ', Clusters.add_position self k p σ = (Ok tt, σ')
    ∧ table_ok σ' self
    ∧ positions_of σ' self k = Some (set_add (default [] (positions_of σ self k)) p)
    ∧ ∀ k', k' ≠ k → positions_of σ' self k' = positions_of σ self k'.
Proof.
  intros Hok.
  destruct (Clusters_add_position_positions σ self k p Hok) as (σ' & Hrun & Hok' & Hpos).
  exists σ'. split; [done|]. split; [done|]. split.
  - by rewrite Hpos, decide_True.
  - intros k' Hne. by rewrite Hpos, decide_False.
Qed.

Lemma add_position_frame_witness :
  let σ := {| tables := [mkClusters {[ "AA.BB"%string := 0%nat ]}];
              heap := [mkCluster [mkPosition (Some "chr1"%string) 100]];
              files := ∅ |} in
  let p := mkPosition (Some "chr2"%string) 50 in
  ∃ σ', Clusters.add_position (rt := simple_runtime) 0%nat "CC.DD" p σ = (Ok tt, σ')
    ∧ table_ok σ' 0%nat
    ∧ positions_of σ' 0%nat "CC.DD"
      = Some (set_add (rt := simple_runtime) (default [] (positions_of σ 0%nat "CC.DD")) p)
    ∧ ∀ k', k' ≠ "CC.DD"%string → positions_of σ' 0%nat k' = positions_of σ 0%nat k'.
Proof.
  intros σ p. apply (add_position_frame (rt := simple_runtime) σ 0%nat "CC.DD" p).
  exists {[ "AA.BB"%string := 0%nat ]}. split; [reflexivity|]. split.
  - intros k r [<- <-]%lookup_singleton_Some. eexists. split; [reflexivity|].
    simpl. apply NoDup_singleton.
  - intros k k' r [<- _]%lookup_singleton_Some [<- _]%lookup_singleton_Some. done.
Defined.

(** X7: after [remove_cluster(k)], [get_cluster(k)] starts the key over
    with a new, empty cluster; the cluster that was removed from the table
    is another object and keeps its positions. *)
Theorem remove_then_get (σ : state) (self : ref) (d : gmap string ref) (k : string)
    (r : ref) (c : Cluster) :
  dict_of σ self = Some d → d !! k = Some r → heap σ !! r = Some c →
  ∃ σ', (Clusters.remove_cluster self k ;; Clusters.get_cluster self k) σ
        = (Ok (length (heap σ)), σ')
    ∧ length (heap σ) ≠ r
    ∧ positions_of σ' self k = Some []
    ∧ heap σ' !! r = Some c.
Proof.
  intros Ht Hk Hr. rewrite bind_run. unfold Clusters.remove_cluster.
  rewrite (dict_delitem_run σ self d), Hk by done.
  rewrite (get_cluster_absent _ self (delete k d)); simpl.
  - eexists. split; [done|].
    split. { apply lookup_lt_Some in Hr. lia. }
    split.
    + apply (positions_of_Some _ self k (<[k := length (heap σ)]> (delete k d))
               (length (heap σ)) (mkCluster [])).
      * apply dict_of_Some. simpl. rewrite list_insert_insert_eq.
        apply list_lookup_insert_eq. apply dict_of_Some in Ht.
        by eapply lookup_lt_Some.
      * apply lookup_insert_eq.
      * simpl. by rewrite lookup_app_r, Nat.sub_diag by lia.
    + simpl. rewrite lookup_app_l; [done|]. by eapply lookup_lt_Some.
  - rewrite (dict_of_store σ self self d) by done. by rewrite decide_True.
  - apply lookup_delete_eq.
Qed.

Lemma remove_then_get_witness :
  let σ := {| tables := [mkClusters {[ "AA.BB"%string := 0%nat ]}];
              heap := [mkCluster [mkPosition (Some "chr1"%string) 100]];
              files := ∅ |} in
  ∃ σ', (Clusters.remove_cluster 0%nat "AA.BB" ;; Clusters.get_cluster 0%nat "AA.BB") σ
        = (Ok (length (heap σ)), σ')
    ∧ length (heap σ) ≠ 0%nat
    ∧ positions_of σ' 0%nat "AA.BB" = Some []
    ∧ heap σ' !! 0%nat = Some (mkCluster [mkPosition (Some "chr1"%string) 100]).
Proof.
  intros σ.
  apply (remove_then_get σ 0%nat {[ "AA.BB"%string := 0%nat ]} "AA.BB" 0%nat);
    reflexivity.
Defined.

(** *** Clusters only grow *)

Lemma heap_get_cluster (σ : state) (t : ref) (k : string) :
  heap σ `prefix_of` heap (Clusters.get_cluster t k σ).2.
Proof.
  destruct (dict_of σ t) as [d|] eqn:Ht.
  2:{ by rewrite get_cluster_dangling. }
  destruct (d !! k) as [r|] eqn:Hk.
  - by rewrite (get_cluster_present σ t d k r).
  - rewrite (get_cluster_absent σ t d) by done. simpl. by apply prefix_app_r.
Qed.

Lemma grows_Cluster_add_position {rt : Runtime} (σ : state) (r0 r : ref) (p : Position)
    (c0 : Cluster) :
  heap σ !! r = Some c0 →
  ∃ c1, heap (Cluster.add_position r0 p σ).2 !! r = Some c1
        ∧ ∀ q, q ∈ _positions c0 → q ∈ _positions c1.
Proof.
  intros Hr. destruct (heap σ !! r0) as [c|] eqn:Hr0.
  2:{ rewrite Cluster_add_position_dangling by done. by exists c0. }
  rewrite (Cluster_add_position_run σ r0 c) by done. simpl.
  destruct (decide (r0 = r)) as [->|Hne].
  - eexists. split; [apply list_lookup_insert_eq; by eapply lookup_lt_Some|].
    intros q Hq. simpl. apply elem_of_set_add. left. congruence.
  - exists c0. by rewrite list_lookup_insert_ne.
Qed.

Lemma grows_exec {rt : Runtime} (c : call) (σ : state) (r : ref) (c0 : Cluster) :
  heap σ !! r = Some c0 →
  ∃ c1, heap (exec c σ) !! r = Some c1 ∧ ∀ q, q ∈ _positions c0 → q ∈ _positions c1.
Proof.
  intros Hr. destruct c as [|t' k'|t' k' p|t'|t' k']; simpl.
  - by exists c0.
  - exists c0. split; [|done].
    destruct (heap_get_cluster σ t' k') as [ext ->].
    rewrite lookup_app_l; [done|]. by eapply lookup_lt_Some.
  - unfold Clusters.add_position. rewrite bind_run.
    assert (Hr1 : heap (Clusters.get_cluster t' k' σ).2 !! r = Some c0).
    { destruct (heap_get_cluster σ t' k') as [ext ->].
      rewrite lookup_app_l; [done|]. by eapply lookup_lt_Some. }
    destruct (Clusters.get_cluster t' k' σ) as [[c|e] σ1]; simpl in *.
    + by apply grows_Cluster_add_position.
    + by exists c0.
  - rewrite render_all_state. by exists c0.
  - exists c0. split; [|done]. unfold Clusters.remove_cluster.
    destruct (dict_of σ t') as [d0|] eqn:Ht'.
    2:{ unfold dict_delitem. by rewrite bind_run, load_dict_dangling. }
    rewrite (dict_delitem_run σ t' d0) by done. by destruct (d0 !! k').
Qed.

(** X8: no call frees a cluster or takes a position out of it: a cluster
    obtained from [get_cluster] keeps every position it has, also after
    [remove_cluster] has dropped it from the table. *)
Theorem cluster_grows {rt : Runtime} (cs : list call) (σ : state) (r : ref) (c0 : Cluster) :
  heap σ !! r = Some c0 →
  ∃ c1, heap (exec_all cs σ) !! r = Some c1
        ∧ ∀ q, q ∈ _positions c0 → q ∈ _positions c1.
Proof.
  revert σ c0. induction cs as [|c cs IH]; intros σ c0 Hr; simpl.
  - by exists c0.
  - destruct (grows_exec c σ r c0 Hr) as (c1 & Hr1 & Hsub).
    destruct (IH _ c1 Hr1) as (c2 & Hr2 & Hsub2).
    exists c2. split; [done|]. intros q Hq. by apply Hsub2, Hsub.
Qed.

Lemma cluster_grows_witness :
  let σ := {| tables := [mkClusters {[ "AA.BB"%string := 0%nat ]}];
              heap := [mkCluster [mkPosition (Some "chr1"%string) 100]];
              files := ∅ |} in
  let cs := [RemoveCluster 0%nat "AA.BB";
             AddPosition 0%nat "AA.BB" (mkPosition (Some "chr2"%string) 50)] in
  ∃ c1, heap (exec_all (rt := simple_runtime) cs σ) !! 0%nat = Some c1
        ∧ ∀ q, q ∈ [mkPosition (Some "chr1"%string) 100] → q ∈ _positions c1.
Proof.
  intros σ cs.
  apply (cluster_grows (rt := simple_runtime) cs σ 0%nat
           (mkCluster [mkPosition (Some "chr1"%string) 100])).
  reflexivity.
Defined.

(** ** Rendering a cluster *)

(** X9: the text of a cluster has one field for each of its positions
    and no other: for positions that have a chromosome, added to a new
    cluster in any order and any number of times, [to_string] joins with
    tabs the texts of the distinct positions, each once. *)
Theorem Cluster_to_string_fields {rt : Runtime} (ps : list Position) (σ : state) :
  (∀ p, p ∈ ps → is_Some (_chromosome p)) →
  ∃ fields,
    (string_after_adds ps σ).1 = Ok (str_join TAB fields)
    ∧ NoDup fields
    ∧ (∀ f, f ∈ fields ↔ ∃ p, p ∈ ps ∧ Position.to_string p = Ok f)
    ∧ length fields = distinct_pairs ps.
Proof.
  intros Hall. set (s := foldl set_add [] ps).
  assert (Hs : ∀ p, p ∈ s ↔ p ∈ ps).
  { intros p. unfold s. rewrite elem_of_foldl_set_add, elem_of_nil. tauto. }
  assert (Hiter : ∀ p, p ∈ set_iter s ↔ p ∈ ps).
  { intros p. by rewrite set_iter_perm. }
  exists (position_text <$> set_iter s). split; [|split; [|split]].
  - unfold string_after_adds. rewrite bind_run, Cluster_init_run, bind_run.
    rewrite (for_each_add_position_run ps _ _ (mkCluster [])); simpl.
    2:{ by rewrite lookup_app_r, Nat.sub_diag by lia. }
    rewrite Cluster_to_string_run. simpl.
    rewrite (cluster_string_ok _ _ (mkCluster s)); [done| |].
    + simpl. apply list_lookup_insert_eq. rewrite length_app. simpl. lia.
    + simpl. intros p Hp. by apply Hall, Hs.
  - apply NoDup_fmap_2_strong.
    + intros p q Hp Hq. apply position_text_inj; by apply Hall, Hiter.
    + rewrite set_iter_perm. by apply NoDup_foldl_set_add, NoDup_nil_2.
  - intros f. rewrite list_elem_of_fmap. split.
    + intros (p & -> & Hp). exists p. apply Hiter in Hp. split; [done|].
      by apply to_string_text, Hall.
    + intros (p & Hp & Hf). exists p. split; [|by apply Hiter].
      rewrite to_string_text in Hf by by apply Hall. congruence.
  - rewrite length_fmap, set_iter_perm. apply length_foldl_set_add.
Qed.

Lemma Cluster_to_string_fields_witness :
  let ps := [mkPosition (Some "chr1"%string) 100; mkPosition (Some "chr2"%string) 200;
             mkPosition (Some "chr1"%string) 100] in
  ∃ fields,
    (string_after_adds (rt := simple_runtime) ps initial).1 = Ok (str_join TAB fields)
    ∧ NoDup fields
    ∧ (∀ f, f ∈ fields ↔ ∃ p, p ∈ ps ∧ Position.to_string p = Ok f)
    ∧ length fields = distinct_pairs ps.
Proof.
  intros ps. apply (Cluster_to_string_fields (rt := simple_runtime) ps initial).
  intros p Hp. repeat (apply elem_of_cons in Hp as [->|Hp]; [by eexists|]).
  by apply elem_of_nil in Hp.
Defined.

(** ** [get_clusters] groups the positions by key *)

Lemma extract_search (N : Z) (name : string) (m : Match) :
  N < 100 →
  re_search (pattern N) name = Some m → extract N name = Ok (str_join "." (groups m)).
Proof. intros HN Hm. rewrite extract_eq by done. unfold barcodes. by rewrite Hm. Qed.

Lemma for_each_process_groups {rt : Runtime} (t : ref) (N : Z)
    (bamfile : list AlignedSegment) (σ σ' : state) (m : gmap string (list Position)) :
  N < 100 →
  table_ok σ t →
  (∀ k, positions_of σ t k = m !! k) →
  for_each bamfile (process t (pattern N)) σ = (Ok tt, σ') →
  table_ok σ' t ∧ ∀ k, positions_of σ' t k = foldl (group_step N) m bamfile !! k.
Proof.
  intros HN. revert σ m. induction bamfile as [|read bamfile IH]; intros σ m Hok Hm.
  - intros [= <-]. done.
  - rewrite for_each_cons.
    destruct (re_search (pattern N) (query_name read)) as [mm|] eqn:Hmm.
    2:{ by rewrite process_no_match. }
    rewrite (process_match t _ read σ mm Hmm).
    destruct (Clusters_add_position_positions σ t (str_join "." (groups mm))
                (position_of read) Hok)
      as (σ1 & Hrun & Hok1 & Hpos).
    fold (position_of read). rewrite Hrun. intros Hrest.
    apply (IH σ1 (group_step N m read)); [done| |done].
    intros k. unfold group_step. rewrite (extract_search N _ mm HN Hmm).
    destruct (decide (k = str_join "." (groups mm))) as [->|Hne].
    + by rewrite lookup_insert_eq, Hpos, decide_True, Hm.
    + by rewrite lookup_insert_ne, Hpos, decide_False, Hm.
Qed.

(** What the grouping function holds under a key. *)
Lemma group_step_spec {rt : Runtime} (N : Z) (l : list AlignedSegment)
    (m : gmap string (list Position)) (k : string) :
  (∀ ps, m !! k = Some ps → NoDup ps) →
  (foldl (group_step N) m l !! k = None ↔
     m !! k = None ∧ ∀ read, read ∈ l → extract N (query_name read) ≠ Ok k)
  ∧ (∀ ps, foldl (group_step N) m l !! k = Some ps →
       NoDup ps
       ∧ ∀ p, p ∈ ps ↔
           p ∈ default [] (m !! k)
           ∨ ∃ read, read ∈ l ∧ extract N (query_name read) = Ok k
                     ∧ p = position_of read).
Proof.
  revert m. induction l as [|read l IH]; intros m Hnd; simpl.
  - split.
    + split; [intros Hk; split; [done|]; by intros ? ?%elem_of_nil|by intros [? _]].
    + intros ps Hps. split; [by eapply Hnd|]. intros p. rewrite Hps. simpl.
      split; [by left|]. intros [?|(? & ?%elem_of_nil & _)]; done.
  - assert (Hstep : ∀ ps, group_step N m read !! k = Some ps → NoDup ps).
    { unfold group_step. destruct (extract N (query_name read)) as [k'|]; [|done].
      intros ps. rewrite lookup_insert. case_decide; [|apply Hnd].
      intros [= <-]. apply NoDup_set_add.
      destruct (m !! k') as [ps'|] eqn:Hk'; simpl; [subst; by eapply Hnd|constructor]. }
    destruct (IH (group_step N m read) Hstep) as [HNone HSome]. split.
    + rewrite HNone. unfold group_step.
      destruct (extract N (query_name read)) as [k'|e] eqn:Hex.
      * rewrite lookup_insert. case_decide as Hkk.
        -- subst k'. split; [by intros [? _]|].
           intros [_ Hall]. exfalso. apply (Hall read); [apply elem_of_cons; by left|done].
        -- split.
           ++ intros [Hm Hall]. split; [done|].
              intros r [->|Hr]%elem_of_cons; [congruence|by apply Hall].
           ++ intros [Hm Hall]. split; [done|].
              intros r Hr. apply Hall, elem_of_cons. by right.
      * split.
        -- intros [Hm Hall]. split; [done|].
           intros r [->|Hr]%elem_of_cons; [congruence|by apply Hall].
        -- intros [Hm Hall]. split; [done|].
           intros r Hr. apply Hall, elem_of_cons. by right.
    + intros ps Hps. destruct (HSome ps Hps) as [Hnd' Hmem]. split; [done|].
      intros p. rewrite Hmem. unfold group_step.
      destruct (extract N (query_name read)) as [k'|e] eqn:Hex.
      * rewrite lookup_insert. case_decide as Hkk.
        -- subst k'. simpl. rewrite elem_of_set_add. split.
           ++ intros [[Hp| ->]|(r & Hr & Hrk & ->)].
              ** by left.
              ** right. exists read. split; [apply elem_of_cons; by left|done].
              ** right. exists r. split; [apply elem_of_cons; by right|done].
           ++ intros [Hp|(r & [->|Hr]%elem_of_cons & Hrk & ->)].
              ** left. by left.
              ** left. by right.
              ** right. by exists r.
        -- split.
           ++ intros [Hp|(r & Hr & Hrk & ->)]; [by left|].
              right. exists r. split; [apply elem_of_cons; by right|done].
           ++ intros [Hp|(r & [->|Hr]%elem_of_cons & Hrk & ->)];
                [by left|congruence|]. right. by exists r.
      * split.
        -- intros [Hp|(r & Hr & Hrk & ->)]; [by left|].
           right. exists r. split; [apply elem_of_cons; by right|done].
        -- intros [Hp|(r & [->|Hr]%elem_of_cons & Hrk & ->)];
             [by left|congruence|]. right. by exists r.
Qed.

Lemma group_spec {rt : Runtime} (N : Z) (bamfile : list AlignedSegment) (k : string) :
  (group N bamfile !! k = None ↔
     ∀ read, read ∈ bamfile → extract N (query_name read) ≠ Ok k)
  ∧ (∀ ps, group N bamfile !! k = Some ps →
       NoDup ps
       ∧ ∀ p, p ∈ ps ↔
           ∃ read, read ∈ bamfile ∧ extract N (query_name read) = Ok k
                   ∧ p = position_of read).
Proof.
  destruct (group_step_spec N bamfile ∅ k) as [HNone HSome].
  { intros ps. by rewrite lookup_empty. }
  fold (group N bamfile) in *. split.
  - rewrite HNone, lookup_empty. split; [by intros [_ ?]|done].
  - intros ps Hps. destruct (HSome ps Hps) as [Hnd Hmem]. split; [done|].
    intros p. rewrite Hmem, lookup_empty. simpl. rewrite elem_of_nil. tauto.
Qed.

(** X10: the table that [get_clusters] returns is the grouping of the
    records by key: a key is in the table exactly when a record has it,
    and its cluster holds, each once, the positions of the records that
    have it and no other position. *)
Theorem get_clusters_groups {rt : Runtime} (bamfile : list AlignedSegment) (N : Z)
    (σ σ' : state) (clusters : ref) :
  get_clusters bamfile N σ = (Ok clusters, σ') →
  table_ok σ' clusters
  ∧ ∀ k,
      positions_of σ' clusters k = group N bamfile !! k
      ∧ (positions_of σ' clusters k = None ↔
           ∀ read, read ∈ bamfile → extract N (query_name read) ≠ Ok k)
      ∧ (∀ ps, positions_of σ' clusters k = Some ps →
           NoDup ps
           ∧ ∀ p, p ∈ ps ↔
               ∃ read, read ∈ bamfile ∧ extract N (query_name read) = Ok k
                       ∧ p = position_of read).
Proof.
  intros Hget. pose proof (get_clusters_Ok_limit _ _ _ _ _ Hget) as HN.
  revert Hget. rewrite get_clusters_run by done.
  destruct (for_each bamfile _ _) as [[[]|e] σ1] eqn:Hrun; [|done].
  intros [= <- <-].
  destruct (for_each_process_groups _ N bamfile _ σ1 ∅ HN (table_ok_new σ))
    as [Hok Hpos]; [|exact Hrun|].
  { intros k. rewrite lookup_empty.
    apply (positions_of_None _ _ k ∅); [|apply lookup_empty].
    apply dict_of_Some. simpl. by rewrite lookup_app_r, Nat.sub_diag by lia. }
  split; [done|]. intros k. fold (group N bamfile) in Hpos.
  rewrite Hpos. split; [done|]. apply group_spec.
Qed.

Lemma get_clusters_groups_witness :
  ∃ clusters σ',
    get_clusters (rt := simple_runtime) scenario 2 initial = (Ok clusters, σ')
    ∧ table_ok σ' clusters
    ∧ ∀ k,
        positions_of σ' clusters k = group (rt := simple_runtime) 2 scenario !! k
        ∧ (positions_of σ' clusters k = None ↔
             ∀ read, read ∈ scenario → extract 2 (query_name read) ≠ Ok k)
        ∧ (∀ ps, positions_of σ' clusters k = Some ps →
             NoDup ps
             ∧ ∀ p, p ∈ ps ↔
                 ∃ read, read ∈ scenario ∧ extract 2 (query_name read) = Ok k
                         ∧ p = position_of read).
Proof.
  eexists _, _. split; [apply get_clusters_scenario|].
  apply (get_clusters_groups (rt := simple_runtime) scenario 2 initial).
  apply get_clusters_scenario.
Defined.

(** ** What [get_clusters] allocates *)

(** X11: whatever the outcome, [get_clusters] changes no object that was
    there before and no file: it adds its one table and new clusters. *)
Theorem get_clusters_allocates {rt : Runtime} (bamfile : list AlignedSegment) (N : Z)
    (σ : state) :
  ∃ T new,
    tables (get_clusters bamfile N σ).2 = tables σ ++ [T]
    ∧ heap (get_clusters bamfile N σ).2 = heap σ ++ new
    ∧ files (get_clusters bamfile N σ).2 = files σ.
Proof.
  destruct (decide (N < 100)) as [HN|HN].
  - rewrite get_clusters_run by done.
    destruct (for_each_process_allocates σ (pattern N) bamfile
      {| tables := tables σ ++ [mkClusters ∅]; heap := heap σ; files := files σ |})
      as (T & new & Ht & Hh & Hf).
    { exists (mkClusters ∅), []. simpl. rewrite app_nil_r.
      repeat split. intros k r. by rewrite lookup_empty. }
    exists T, new. by destruct (for_each bamfile _ _) as [[[]|e] σ1].
  - rewrite get_clusters_limit by lia. simpl.
    exists (mkClusters ∅), []. by rewrite app_nil_r.
Qed.

(** ** Writing the table *)

(** X12: [write_clusters_to_file] changes no object and no other file;
    whatever the outcome, the output file exists afterwards, and neither
    the outcome nor the new content of the file depends on what the files
    held before. *)
Theorem write_clusters_to_file_frame {rt : Runtime} (clusters : ref) (outfile : string)
    (σ : state) :
  tables (write_clusters_to_file clusters outfile σ).2 = tables σ
  ∧ heap (write_clusters_to_file clusters outfile σ).2 = heap σ
  ∧ (∀ path, path ≠ outfile →
       files (write_clusters_to_file clusters outfile σ).2 !! path = files σ !! path)
  ∧ is_Some (files (write_clusters_to_file clusters outfile σ).2 !! outfile)
  ∧ ∀ fs,
      (write_clusters_to_file clusters outfile
         {| tables := tables σ; heap := heap σ; files := fs |}).1
      = (write_clusters_to_file clusters outfile σ).1
      ∧ files (write_clusters_to_file clusters outfile
                 {| tables := tables σ; heap := heap σ; files := fs |}).2 !! outfile
        = files (write_clusters_to_file clusters outfile σ).2 !! outfile.
Proof.
  destruct (dict_of σ clusters) as [d|] eqn:Hd.
  - rewrite (write_clusters_to_file_run clusters outfile σ d Hd). simpl.
    split; [done|]. split; [done|]. split; [|split].
    + intros path Hne. by rewrite lookup_insert_ne.
    + rewrite lookup_insert_eq. by eexists.
    + intros fs.
      rewrite (write_clusters_to_file_run clusters outfile
                 {| tables := tables σ; heap := heap σ; files := fs |} d Hd). simpl.
      rewrite !lookup_insert_eq.
      assert (Hl : ∀ item, line {| tables := tables σ; heap := heap σ; files := fs |} item
                           = line σ item) by (intros item; by apply line_heap).
      by rewrite (list_fmap_ext _ _ (dict_iter d) (λ _ item _, Hl item)).
  - assert (Hrun : ∀ σ1, tables σ1 = tables σ →
        write_clusters_to_file clusters outfile σ1
        = (Raise SystemError,
           {| tables := tables σ1; heap := heap σ1;
              files := <[outfile := ""%string]> (files σ1) |})).
    { intros σ1 Ht. unfold write_clusters_to_file.
      rewrite bind_run. unfold file_open_w at 1. cbv beta.
      rewrite bind_run, to_strings_dangling; [done|].
      unfold dict_of in *. simpl. by rewrite Ht. }
    rewrite (Hrun σ eq_refl). simpl.
    split; [done|]. split; [done|]. split; [|split].
    + intros path Hne. by rewrite lookup_insert_ne.
    + rewrite lookup_insert_eq. by eexists.
    + intros fs.
      rewrite (Hrun {| tables := tables σ; heap := heap σ; files := fs |} eq_refl).
      simpl. by rewrite !lookup_insert_eq.
Qed.

Lemma write_clusters_to_file_mapped {rt : Runtime} (clusters : ref) (outfile : string)
    (σ : state) (d : gmap string ref) :
  dict_of σ clusters = Some d →
  (∀ k r, d !! k = Some r →
     ∃ c, heap σ !! r = Some c ∧ ∀ p, p ∈ _positions c → is_Some (_chromosome p)) →
  write_clusters_to_file clusters outfile σ =
    (Ok tt, {| tables := tables σ; heap := heap σ;
               files := <[outfile := file_text (lines_of σ d)]> (files σ) |}).
Proof.
  intros Hd Hall.
  assert (Hlines : collect (line σ <$> dict_iter d) = (lines_of σ d, None)).
  { apply collect_all_ok. intros [k r] Hkr. simpl.
    rewrite dict_iter_perm in Hkr. apply elem_of_map_to_list in Hkr.
    destruct (Hall k r Hkr) as (c & Hr & Hc). by apply (line_ok σ k r c). }
  by rewrite (write_clusters_to_file_run clusters outfile σ d Hd), Hlines.
Qed.

Lemma lines_of_perm {rt : Runtime} (σ : state) (d : gmap string ref) :
  lines_of σ d ≡ₚ line_text <$> map_to_list (positions_at σ <$> d).
Proof.
  unfold lines_of. rewrite dict_iter_perm, map_to_list_fmap, <- list_fmap_compose.
  apply reflexive_eq, list_fmap_ext. by intros _ [k r] _.
Qed.

(** X13: when every cluster of the table is allocated and every position
    has a chromosome, [write_clusters_to_file] returns, and the file is
    made of one line for each key of the table, in some order: the key, a
    tab, and the text of the cluster. *)
Theorem write_clusters_to_file_ok {rt : Runtime} (clusters : ref) (outfile : string)
    (σ : state) (d : gmap string ref) :
  dict_of σ clusters = Some d →
  (∀ k r, d !! k = Some r →
     ∃ c, heap σ !! r = Some c ∧ ∀ p, p ∈ _positions c → is_Some (_chromosome p)) →
  ∃ lines,
    write_clusters_to_file clusters outfile σ =
      (Ok tt, {| tables := tables σ; heap := heap σ;
                 files := <[outfile := file_text lines]> (files σ) |})
    ∧ lines ≡ₚ line_text <$> map_to_list (positions_at σ <$> d)
    ∧ length lines = size d.
Proof.
  intros Hd Hall. exists (lines_of σ d). split; [|split].
  - by apply write_clusters_to_file_mapped.
  - apply lines_of_perm.
  - unfold lines_of. by rewrite length_fmap, dict_iter_perm, length_map_to_list.
Qed.

Lemma write_clusters_to_file_ok_witness :
  let σ := {| tables := [mkClusters {[ "AA"%string := 0%nat ]}];
              heap := [mkCluster [mkPosition (Some "chr1"%string) 100]];
              files := ∅ |} in
  ∃ lines,
    write_clusters_to_file (rt := simple_runtime) 0%nat "out" σ =
      (Ok tt, {| tables := tables σ; heap := heap σ;
                 files := <[ "out"%string := file_text lines]> (files σ) |})
    ∧ lines ≡ₚ line_text (rt := simple_runtime)
                 <$> map_to_list (positions_at σ <$> {[ "AA"%string := 0%nat ]})
    ∧ length lines = size ({[ "AA"%string := 0%nat ]} : gmap string ref).
Proof.
  intros σ.
  apply (write_clusters_to_file_ok (rt := simple_runtime) 0%nat "out" σ
           {[ "AA"%string := 0%nat ]}).
  - reflexivity.
  - intros k r [<- <-]%lookup_singleton_Some. eexists. split; [reflexivity|].
    simpl. intros p ->%list_elem_of_singleton. by eexists.
Defined.

(** ** The whole run *)



(** ** The table does not depend on the runtime *)

Lemma set_add_runtime (rt rt' : Runtime) (s : list Position) (x : Position) :
  @set_add rt s x = @set_add rt' s x.
Proof.
  unfold set_add.
  destruct (@set_contains rt s x) eqn:H1, (@set_contains rt' s x) eqn:H2; try done.
  - apply (set_contains_elem_of (rt := rt)) in H1.
    apply (set_contains_elem_of (rt := rt')) in H1. congruence.
  - apply (set_contains_elem_of (rt := rt')) in H2.
    apply (set_contains_elem_of (rt := rt)) in H2. congruence.
Qed.

Lemma Clusters_add_position_runtime (rt rt' : Runtime) (self : ref) (k : string)
    (p : Position) (σ : state) :
  @Clusters.add_position rt self k p σ = @Clusters.add_position rt' self k p σ.
Proof.
  unfold Clusters.add_position. rewrite !bind_run.
  destruct (Clusters.get_cluster self k σ) as [[c|e] σ1]; [|done].
  unfold Cluster.add_position. rewrite !bind_run.
  destruct (load c σ1) as [[x|e] σ2]; [|done].
  by rewrite (set_add_runtime rt rt').
Qed.

Lemma for_each_process_runtime (rt rt' : Runtime) (t : ref) (p : regex)
    (bamfile : list AlignedSegment) (σ : state) :
  for_each bamfile (@process rt t p) σ = for_each bamfile (@process rt' t p) σ.
Proof.
  revert σ. induction bamfile as [|read bamfile IH]; intros σ; [done|].
  rewrite !for_each_cons.
  assert (Hstep : @process rt t p read σ = @process rt' t p read σ).
  { destruct (re_search p (query_name read)) as [m|] eqn:Hm.
    - rewrite !(process_match _ _ _ _ m Hm). apply Clusters_add_position_runtime.
    - by rewrite !process_no_match. }
  rewrite Hstep. by destruct (@process rt' t p read σ) as [[[]|e] σ1].
Qed.

(** X15: the outcome of [get_clusters] and the objects it builds do not
    depend on the hash values of the positions, nor on the order in which
    sets and dictionaries are iterated. *)
Theorem get_clusters_runtime (rt rt' : Runtime) (bamfile : list AlignedSegment) (N : Z)
    (σ : state) :
  @get_clusters rt bamfile N σ = @get_clusters rt' bamfile N σ.
Proof.
  destruct (decide (N < 100)) as [HN|HN].
  - rewrite !get_clusters_run by done. by rewrite (for_each_process_runtime rt rt').
  - by rewrite !get_clusters_limit by lia.
Qed.

(** ** What the file holds when the writing fails *)

Lemma collect_prefix {A B} (f : A → result B) (l : list A) :
  ∃ l1 l2, l = l1 ++ l2
    ∧ Forall2 (λ x y, f x = Ok y) l1 (collect (f <$> l)).1
    ∧ ((collect (f <$> l)).2 = None ↔ l2 = []).
Proof.
  induction l as [|x l IH].
  - exists [], []. simpl. split; [done|]. split; [constructor|done].
  - rewrite fmap_cons. simpl. destruct (f x) as [y|e] eqn:Hx.
    + destruct IH as (l1 & l2 & Hl & Hall & Hnone).
      destruct (collect (f <$> l)) as [ys e']. simpl in *.
      exists (x :: l1), l2. split; [by rewrite Hl|]. split; [by constructor|done].
    + exists [], (x :: l). simpl. split; [done|]. split; [constructor|done].
Qed.

(** X16: whatever the outcome, the output file is made of whole lines of
    entries of the table, at most one for each key; the writing returns
    exactly when all of them are there. *)
Theorem write_clusters_to_file_lines {rt : Runtime} (clusters : ref) (outfile : string)
    (σ : state) (d : gmap string ref) :
  dict_of σ clusters = Some d →
  ∃ lines,
    files (write_clusters_to_file clusters outfile σ).2 !! outfile
      = Some (file_text lines)
    ∧ (∀ l, l ∈ lines → ∃ k r, d !! k = Some r ∧ line σ (k, r) = Ok l)
    ∧ (length lines ≤ size d)%nat
    ∧ ((write_clusters_to_file clusters outfile σ).1 = Ok tt ↔ length lines = size d).
Proof.
  intros Hd. rewrite (write_clusters_to_file_run clusters outfile σ d Hd). simpl.
  destruct (collect_prefix (line σ) (dict_iter d)) as (l1 & l2 & Hl & Hall & Hnone).
  exists (collect (line σ <$> dict_iter d)).1.
  assert (Hsize : size d = (length l1 + length l2)%nat).
  { by rewrite <- length_map_to_list, <- dict_iter_perm, Hl, length_app. }
  apply Forall2_length in Hall as Hlen.
  split; [by rewrite lookup_insert_eq|]. split; [|split].
  - intros l (i & Hi)%list_elem_of_lookup_1.
    destruct (Forall2_lookup_r _ _ _ _ _ Hall Hi) as ([k r] & Hx & Hline).
    exists k, r. split; [|done].
    apply elem_of_map_to_list. rewrite <- dict_iter_perm, Hl.
    apply elem_of_app. left. by eapply list_elem_of_lookup_2.
  - lia.
  - destruct (collect (line σ <$> dict_iter d)).2 as [e|] eqn:He.
    + split; [done|]. intros Heq. destruct Hnone as [_ Hnone].
      exfalso. assert (Hnil : l2 = []) by (apply length_zero_iff_nil; lia).
      by specialize (Hnone Hnil).
    + destruct Hnone as [Hnone _]. rewrite (Hnone eq_refl) in Hsize.
      simpl in Hsize. split; [lia|done].
Qed.

Lemma write_clusters_to_file_lines_witness :
  let σ := {| tables := [mkClusters {[ "AA"%string := 0%nat ]}];
              heap := [mkCluster [mkPosition None 100]];
              files := ∅ |} in
  ∃ lines,
    files (write_clusters_to_file (rt := simple_runtime) 0%nat "out" σ).2 !! "out"%string
      = Some (file_text lines)
    ∧ (∀ l, l ∈ lines →
         ∃ k r, ({[ "AA"%string := 0%nat ]} : gmap string ref) !! k = Some r
                ∧ line (rt := simple_runtime) σ (k, r) = Ok l)
    ∧ (length lines ≤ size ({[ "AA"%string := 0%nat ]} : gmap string ref))%nat
    ∧ ((write_clusters_to_file (rt := simple_runtime) 0%nat "out" σ).1 = Ok tt
       ↔ length lines = size ({[ "AA"%string := 0%nat ]} : gmap string ref)).
Proof.
  intros σ.
  apply (write_clusters_to_file_lines (rt := simple_runtime) 0%nat "out" σ
           {[ "AA"%string := 0%nat ]}).
  reflexivity.
Defined.

(** ** Reading a line back *)

Lemma str_split_first (c : ascii) (a b x y : string) :
  str_mem c a = false → str_mem c b = false →
  a +:+ String c x = b +:+ String c y → a = b ∧ x = y.
Proof.
  revert b. induction a as [|c1 a IH]; intros [|c2 b]; simpl.
  - rewrite !str_app_nil_l. by intros _ _ [= ->].
  - rewrite str_app_nil_l, str_app_cons. intros _ Hb [= <- _].
    by rewrite Ascii.eqb_refl in Hb.
  - rewrite str_app_nil_l, str_app_cons. intros Ha _ [= -> _].
    by rewrite Ascii.eqb_refl in Ha.
  - rewrite !str_app_cons.
    intros [_ Ha]%orb_false_iff [_ Hb]%orb_false_iff [= -> Heq].
    destruct (IH b Ha Hb Heq) as [-> ->]. done.
Qed.

Lemma all_word_no_tab (b : string) : all_word b = true → str_mem "009" b = false.
Proof.
  induction b as [|c b IH]; simpl; [done|].
  intros [Hc Hb]%andb_true_iff. rewrite (IH Hb), orb_false_r.
  destruct (Ascii.eqb_spec c "009") as [->|]; [by vm_compute in Hc|done].
Qed.

Lemma str_join_no_tab (bs : list string) :
  forallb is_barcode bs = true → str_mem "009" (str_join "." bs) = false.
Proof.
  induction bs as [|b bs IH]; [done|]. simpl forallb.
  intros [Hb Hbs]%andb_true_iff. rewrite str_join_cons, str_mem_app.
  rewrite (all_word_no_tab b) by by apply is_barcode_all_word.
  destruct bs as [|b' bs']; [done|]. unfold join_tail.
  rewrite str_mem_app, (IH Hbs). done.
Qed.

Lemma extract_no_tab (N : Z) (name k : string) :
  extract N name = Ok k → str_mem "009" k = false.
Proof.
  intros Hk. pose proof (extract_Ok_limit N name k Hk) as HN.
  revert Hk. rewrite extract_eq by done. unfold barcodes.
  destruct (re_search (pattern N) name) as [m|] eqn:Hm; [|done].
  intros [= <-]. destruct (re_search_leftmost N name m Hm) as (pre & Hat & _).
  apply str_join_no_tab. by destruct Hat as (_ & ? & _).
Qed.

(** X17: a key that [get_clusters] extracts has no tab in it, so a line
    that [to_strings] makes from such a key tells the key, which is the
    text before the first tab, from the text of the cluster. *)
Theorem line_key_inj (N : Z) (name name' k k' s s' : string) :
  extract N name = Ok k → extract N name' = Ok k' →
  k +:+ TAB +:+ s = k' +:+ TAB +:+ s' →
  str_mem "009" k = false ∧ k = k' ∧ s = s'.
Proof.
  intros Hk%extract_no_tab Hk'%extract_no_tab Heq.
  split; [done|]. by apply (str_split_first "009" k k' s s' Hk Hk').
Qed.

Lemma line_key_inj_witness :
  str_mem "009" "AA.BB" = false ∧ "AA.BB"%string = "AA.BB"%string
  ∧ "chr1:100"%string = "chr1:100"%string.
Proof.
  apply (line_key_inj 2 "r1::[AA][BB]" "r2::[AA][BB]" "AA.BB" "AA.BB"
           "chr1:100" "chr1:100"); by vm_compute.
Defined.
